(** * Credential login and route guard of the admin dashboard

    A shallow embedding of
      - [src/app/(main)/auth/v1/login/actions.ts]  ([loginSchema], [loginAction]),
      - [src/auth.config.ts]                       ([authorize], the [jwt] and
                                                    [session] callbacks),
      - [src/proxy.ts]                             (the guard and [config.matcher]),
    and of the seed record of [prisma/seed.ts].

    JavaScript strings are modelled as [string] (a sequence of code units),
    [async] functions as computations in a state-and-exception monad over
    the [World] the login flow can observe: the user store, the session
    cookie, and the trace of calls made to the collaborators. *)

From Stdlib Require Import String Ascii List Bool Arith Lia.
Import ListNotations.
Open Scope string_scope.
Open Scope bool_scope.

(** ** JavaScript values reaching the validators *)

Module Js.

(** What [FormData.get] can hand over (a string, a [File], or [null] when
    the field is absent), plus [undefined] for a missing object key. *)
Inductive Value : Type :=
| VUndefined
| VNull
| VString (s : string)
| VFile (filename : string).

(** Truthiness as used by [||]. *)
Definition truthy (v : Value) : bool :=
  match v with
  | VUndefined | VNull => false
  | VString s => negb (s =? "")
  | VFile _ => true
  end.

(** [a || b] *)
Definition or_else (a b : Value) : Value := if truthy a then a else b.

(** [String.prototype.startsWith] *)
Definition startsWith (s p : string) : bool := String.prefix p s.

End Js.

Import Js.

(** [FormData]: an ordered list of entries; [get] yields the first value
    stored under the name, [null] when there is none. *)
Inductive FormDataEntryValue : Type :=
| EntryString (s : string)
| EntryFile (filename : string).

Definition FormData : Type := list (string * FormDataEntryValue).

Definition entry_value (e : FormDataEntryValue) : Value :=
  match e with
  | EntryString s => VString s
  | EntryFile f => VFile f
  end.

Fixpoint FormData_get (fd : FormData) (name : string) : Value :=
  match fd with
  | [] => VNull
  | (k, v) :: rest => if k =? name then entry_value v else FormData_get rest name
  end.

(** ** Zod *)

Module Zod.

(** The issues a failed parse reports.  [invalid_type] carries the
    library's own message; the other two carry the message given in the
    schema. *)
Inductive ZodIssue : Type :=
| invalid_type (path : string)
| invalid_string (path : string) (message : string)
| too_small (path : string) (message : string).

(** The default address pattern of [z.string().email()], case-insensitive:
    no leading dot and no two dots in a row; a local part of letters,
    digits, underscore, apostrophe, plus, minus and dot that ends in a
    letter, a digit, underscore, plus or minus; an at sign; one or more
    labels (a letter or digit, then letters, digits and minus), each
    followed by a dot; a final label of two or more letters. *)
Definition in_range (lo hi c : ascii) : bool :=
  Nat.leb (nat_of_ascii lo) (nat_of_ascii c) && Nat.leb (nat_of_ascii c) (nat_of_ascii hi).

Definition is_letter (c : ascii) : bool :=
  in_range "A" "Z" c || in_range "a" "z" c.

Definition is_digit (c : ascii) : bool := in_range "0" "9" c.

Definition is_alnum (c : ascii) : bool := is_letter c || is_digit c.

(** the class of the last character of the local part *)
Definition is_local_last (c : ascii) : bool :=
  is_alnum c || Ascii.eqb c "_" || Ascii.eqb c "+" || Ascii.eqb c "-".

(** the class of the other characters of the local part *)
Definition is_local_char (c : ascii) : bool :=
  is_local_last c || Ascii.eqb c "'" || Ascii.eqb c ".".

(** the class of the characters of a domain label after its first *)
Definition is_label_char (c : ascii) : bool :=
  is_alnum c || Ascii.eqb c "-".

Fixpoint all_chars (p : ascii -> bool) (s : string) : bool :=
  match s with
  | EmptyString => true
  | String c rest => p c && all_chars p rest
  end.

Fixpoint last_char (s : string) : option ascii :=
  match s with
  | EmptyString => None
  | String c EmptyString => Some c
  | String _ rest => last_char rest
  end.

(** Split at the first occurrence of [sep]. *)
Fixpoint split_first (sep : ascii) (s : string) : option (string * string) :=
  match s with
  | EmptyString => None
  | String c rest =>
    if Ascii.eqb c sep then Some (EmptyString, rest)
    else match split_first sep rest with
         | Some (l, r) => Some (String c l, r)
         | None => None
         end
  end.

(** Split at every occurrence of [sep]. *)
Fixpoint split_all (sep : ascii) (s : string) : list string :=
  match s with
  | EmptyString => [EmptyString]
  | String c rest =>
    match split_all sep rest with
    | [] => [String c EmptyString]
    | hd :: tl =>
      if Ascii.eqb c sep then EmptyString :: hd :: tl
      else String c hd :: tl
    end
  end.

(** a domain label *)
Definition is_label (s : string) : bool :=
  match s with
  | EmptyString => false
  | String c rest => is_alnum c && all_chars is_label_char rest
  end.

(** the final label *)
Definition is_tld (s : string) : bool :=
  all_chars is_letter s && Nat.leb 2 (String.length s).

(** one or more labels, then the final label, separated by dots *)
Definition is_domain (s : string) : bool :=
  match rev (split_all "." s) with
  | tld :: (l :: ls) => is_tld tld && forallb is_label (l :: ls)
  | _ => false
  end.

(** The two look-aheads, on the local part (a domain that matches has
    no empty label, hence no two dots in a row). *)
Fixpoint no_double_dot (s : string) : bool :=
  match s with
  | String "." (String "." _) => false
  | String _ rest => no_double_dot rest
  | EmptyString => true
  end.

Definition is_local (s : string) : bool :=
  match s with
  | EmptyString => false
  | String c _ =>
    negb (Ascii.eqb c ".") && no_double_dot s && all_chars is_local_char s
    && match last_char s with
       | Some l => is_local_last l
       | None => false
       end
  end.

Definition email_regex (s : string) : bool :=
  match split_first "@" s with
  | Some (l, d) => is_local l && is_domain d
  | None => false
  end.

End Zod.

Import Zod.

(** ** Data model *)

(** The [User] model of the store ([prisma/schema.prisma]). *)
Module Prisma.

Record User : Type := {
  id : string;
  email : string;
  name : option string;
  passwordHash : string;
  role : string;
  createdAt : nat
}.

(** The store: unreachable, or a table of users. *)
Record Db : Type := {
  reachable : bool;
  users : list User
}.

Definition lookup (d : Db) (e : string) : option User :=
  find (fun u => email u =? e) (users d).

End Prisma.

(** The objects Auth.js passes between [authorize], the callbacks and the
    session cookie. *)
Module AuthJs.

(** The object [authorize] returns. *)
Record User : Type := {
  user_id : string;
  user_email : string;
  user_name : option string;
  user_role : string
}.

(** The claims of the session token. *)
Record JWT : Type := {
  token_sub : option string;
  token_name : option string;
  token_email : option string;
  token_role : option string;
  token_id : option string
}.

Record SessionUser : Type := {
  session_name : option string;
  session_email : option string;
  session_role : option string;
  session_id : option string
}.

Record Session : Type := {
  session_user : option SessionUser
}.

End AuthJs.

Import AuthJs.

(** What [authorize] receives: the submitted fields, of unknown type. *)
Record Credentials : Type := {
  cred_email : Value;
  cred_password : Value
}.

(** ** Effects *)

Inductive LogArg : Type :=
| LogNothing
| LogCredentials (c : Credentials)
| LogIssues (issues : list ZodIssue)
| LogString (s : string)
| LogBool (b : bool).

(** The calls the flow makes to its collaborators, in order. *)
Inductive Event : Type :=
| ConsoleLog (label : string) (arg : LogArg)
| FindUnique (where_email : string)
| BcryptCompare (password : string) (hash : string).

Record World : Type := {
  store : Prisma.Db;
  secret : option string;
  cookie : option JWT;
  trace : list Event
}.

(** What a [throw] can carry in this flow. *)
Inductive Exn : Type :=
| ZodError (issues : list ZodIssue)
| AuthError (type : string)
| NEXT_REDIRECT (url : string)
| PrismaError.

Inductive Outcome (A : Type) : Type :=
| Return (a : A)
| Throw (e : Exn).

Arguments Return {A} a.
Arguments Throw {A} e.

Definition M (A : Type) : Type := World -> Outcome A * World.

Definition ret {A} (a : A) : M A := fun w => (Return a, w).

Definition throw {A} (e : Exn) : M A := fun w => (Throw e, w).

Definition bind {A B} (m : M A) (k : A -> M B) : M B :=
  fun w =>
    match m w with
    | (Return a, w') => k a w'
    | (Throw e, w') => (Throw e, w')
    end.

(** [try { body } catch (error) { handler }] *)
Definition try_catch {A} (body : M A) (handler : Exn -> M A) : M A :=
  fun w =>
    match body w with
    | (Return a, w') => (Return a, w')
    | (Throw e, w') => handler e w'
    end.

Declare Scope monad_scope.
Delimit Scope monad_scope with monad.
Notation "x <- m ;; k" := (bind m (fun x => k))
  (at level 61, m at next level, right associativity) : monad_scope.
Notation "m ;; k" := (bind m (fun _ => k))
  (at level 61, right associativity) : monad_scope.
Open Scope monad_scope.

(** The world after the calls [evs] were made. *)
Definition add_trace (w : World) (evs : list Event) : World :=
  {| store := store w; secret := secret w; cookie := cookie w;
     trace := (trace w ++ evs)%list |}.

Definition emit (e : Event) : M unit :=
  fun w => (Return tt, add_trace w [e]).

Definition console_log (label : string) (arg : LogArg) : M unit :=
  emit (ConsoleLog label arg).

(** [prisma.user.findUnique({ where: { email } })] *)
Definition prisma_user_findUnique (e : string) : M (option Prisma.User) :=
  emit (FindUnique e) ;;
  fun w =>
    if Prisma.reachable (store w) then (Return (Prisma.lookup (store w) e), w)
    else (Throw PrismaError, w).

Definition set_cookie (t : JWT) : M unit :=
  fun w => (Return tt,
            {| store := store w; secret := secret w; cookie := Some t;
               trace := trace w |}).

(** How often the password verifier ran. *)
Fixpoint verifier_calls (t : list Event) : nat :=
  match t with
  | [] => 0
  | BcryptCompare _ _ :: rest => S (verifier_calls rest)
  | _ :: rest => verifier_calls rest
  end.

(** ** Schemas, [authorize], callbacks and [loginAction] *)

(** A field validator yields the parsed value or its issues. *)
Definition Parsed (A : Type) : Type := (A + list ZodIssue)%type.

Definition issues_of {A} (p : Parsed A) : list ZodIssue :=
  match p with
  | inl _ => []
  | inr i => i
  end.

Record SignInOptions : Type := {
  opt_email : string;
  opt_password : string;
  redirectTo : option string
}.

(** [LoginState] of [actions.ts]. *)
Record LoginState : Type := {
  error : option string;
  success : option bool
}.

(** The output of [loginSchema]. *)
Record LoginData : Type := {
  data_email : string;
  data_password : string;
  data_from : option string
}.

Definition SignIn : Type := string -> SignInOptions -> M unit.

(** [pages.signIn] of the configuration. *)
Definition pages_signIn : string := "/auth/v1/login".

Section Login.

(** The address check of [z.string().email] and [bcrypt.compare] belong to
    libraries; the flow is stated over any such pair. *)
Variable isEmail : string -> bool.
Variable bcrypt_compare : string -> string -> bool.

(** [z.string().email(message)] *)
Definition z_string_email (path message : string) (v : Value) : Parsed string :=
  match v with
  | VString s => if isEmail s then inl s else inr [invalid_string path message]
  | _ => inr [invalid_type path]
  end.

(** [z.string().min(n, message)] *)
Definition z_string_min (n : nat) (path message : string) (v : Value) : Parsed string :=
  match v with
  | VString s => if Nat.leb n (String.length s) then inl s else inr [too_small path message]
  | _ => inr [invalid_type path]
  end.

(** [z.string().optional()] *)
Definition z_string_optional (path : string) (v : Value) : Parsed (option string) :=
  match v with
  | VUndefined => inl None
  | VString s => inl (Some s)
  | _ => inr [invalid_type path]
  end.

(** The schema of [authorize]: an object of [email] and [password]; the
    issues of all fields are reported together. *)
Definition schema_safeParse (credentials : Credentials) : Parsed (string * string) :=
  let e := z_string_email "email" "Invalid email address" (cred_email credentials) in
  let p := z_string_min 6 "password" "Password must be at least 6 characters"
                        (cred_password credentials) in
  match e, p with
  | inl e', inl p' => inl (e', p')
  | _, _ => inr (issues_of e ++ issues_of p)%list
  end.

(** [loginSchema.parse]: as above with the optional [from]; a failure is
    thrown as a [ZodError]. *)
Definition loginSchema_parse (email password from : Value) : M LoginData :=
  let e := z_string_email "email" "Invalid email address" email in
  let p := z_string_min 6 "password" "Password must be at least 6 characters" password in
  let f := z_string_optional "from" from in
  match e, p, f with
  | inl e', inl p', inl f' =>
    ret {| data_email := e'; data_password := p'; data_from := f' |}
  | _, _, _ => throw (ZodError (issues_of e ++ issues_of p ++ issues_of f)%list)
  end.

(** [bcrypt.compare(password, hash)] *)
Definition bcrypt_compare_call (password hash : string) : M bool :=
  emit (BcryptCompare password hash) ;;
  ret (bcrypt_compare password hash).

(** [authorize] of the Credentials provider. *)
Definition authorize (credentials : Credentials) : M (option AuthJs.User) :=
  console_log "[AUTH] authorize called with:" (LogCredentials credentials) ;;
  match schema_safeParse credentials with
  | inr issues =>
    console_log "[AUTH] Validation failed:" (LogIssues issues) ;;
    ret None
  | inl (email, password) =>
    console_log "[AUTH] Looking for user:" (LogString email) ;;
    user <- prisma_user_findUnique email ;;
    match user with
    | None =>
      console_log "[AUTH] User not found" LogNothing ;;
      ret None
    | Some user =>
      console_log "[AUTH] User found, checking password" LogNothing ;;
      isValidPassword <- bcrypt_compare_call password (Prisma.passwordHash user) ;;
      console_log "[AUTH] Password valid:" (LogBool isValidPassword) ;;
      if negb isValidPassword then ret None
      else
        console_log "[AUTH] Login successful for:" (LogString (Prisma.email user)) ;;
        ret (Some {| user_id := Prisma.id user;
                     user_email := Prisma.email user;
                     user_name := Prisma.name user;
                     user_role := Prisma.role user |})
    end
  end.

(** [callbacks.jwt]: on sign-in, the role and the id are added to the
    token. *)
Definition jwt (token : JWT) (user : option AuthJs.User) : JWT :=
  match user with
  | Some u =>
    {| token_sub := token_sub token;
       token_name := token_name token;
       token_email := token_email token;
       token_role := Some (user_role u);
       token_id := Some (user_id u) |}
  | None => token
  end.

(** [callbacks.session]: the role and the id are copied from the token
    into [session.user], when there is one. *)
Definition session (s : Session) (token : JWT) : Session :=
  match session_user s with
  | Some su =>
    {| session_user :=
         Some {| session_name := session_name su;
                 session_email := session_email su;
                 session_role := token_role token;
                 session_id := token_id token |} |}
  | None => s
  end.

(** Modelled from the spec: the token the Session Issuer starts from on
    sign-in (part of Auth.js).  It carries the
    subject, the name and the email of the object [authorize] returned. *)
Definition defaultToken (u : AuthJs.User) : JWT :=
  {| token_sub := Some (user_id u);
     token_name := user_name u;
     token_email := Some (user_email u);
     token_role := None;
     token_id := None |}.

(** Modelled from the spec: the session decoded from a token before the
    [session] callback runs (part of Auth.js). *)
Definition defaultSession (token : JWT) : Session :=
  {| session_user :=
       Some {| session_name := token_name token;
               session_email := token_email token;
               session_role := None;
               session_id := None |} |}.

(** The claims the Route Guard and the pages read from a session cookie. *)
Definition session_of_token (token : JWT) : Session :=
  session (defaultSession token) token.

(** Modelled from the spec: [signIn] of [@/auth] ([src/auth.ts], the Auth.js
    instance built from the configuration).
    Per the spec's Login Orchestrator, steps 2 to 6, and its error design:
    the provider's [authorize] runs; [null] is reported as the
    credentials-sign-in failure; a fault of a collaborator (the store, or
    a Session Issuer without its signing secret) is reported as another
    [AuthError]; a user is handed to the Session Issuer, which passes the
    token through the [jwt] callback and sets it as the session cookie; the
    success is then signalled by the redirect to [redirectTo], thrown
    in-band.  A provider id other than the one configured is sent to the
    sign-in page. *)
Definition signIn : SignIn := fun provider options =>
  if negb (provider =? "credentials") then
    throw (NEXT_REDIRECT pages_signIn)
  else fun w =>
    match secret w with
    | None => (Throw (AuthError "MissingSecret"), w)
    | Some _ =>
      match authorize {| cred_email := VString (opt_email options);
                         cred_password := VString (opt_password options) |} w with
      | (Return None, w') => (Throw (AuthError "CredentialsSignin"), w')
      | (Return (Some user), w') =>
        (set_cookie (jwt (defaultToken user) (Some user)) ;;
         throw (NEXT_REDIRECT
                  (match redirectTo options with Some u => u | None => "/" end))) w'
      | (Throw (AuthError t), w') => (Throw (AuthError t), w')
      | (Throw _, w') => (Throw (AuthError "CallbackRouteError"), w')
      end
    end.

(** [loginAction], over the [signIn] it imports. *)
Definition loginAction_with (signIn : SignIn)
           (_prevState : LoginState) (formData : FormData) : M LoginState :=
  try_catch
    (data <- loginSchema_parse
               (FormData_get formData "email")
               (FormData_get formData "password")
               (or_else (FormData_get formData "from") (VString "/dashboard/default")) ;;
     signIn "credentials"
            {| opt_email := data_email data;
               opt_password := data_password data;
               redirectTo := data_from data |} ;;
     ret {| error := None; success := Some true |})
    (fun error =>
       match error with
       | AuthError type =>
         if type =? "CredentialsSignin" then
           ret {| error := Some "Invalid email or password"; success := None |}
         else
           ret {| error := Some "Something went wrong. Please try again.";
                  success := None |}
       | _ =>
         (* If it's a redirect (successful login), re-throw it *)
         throw error
       end).

(** [loginAction] with the [signIn] of this application. *)
Definition loginAction : LoginState -> FormData -> M LoginState :=
  loginAction_with signIn.

End Login.

(** ** URLs *)

Module Url.

(** The [application/x-www-form-urlencoded] serializer behind
    [URLSearchParams]: letters, digits and the four marks [* - . _] stay,
    a space becomes [+], every other code unit becomes [%] and two
    upper-case hexadecimal digits. *)
Definition hex_digit (n : nat) : ascii :=
  match n with
  | 0 => "0" | 1 => "1" | 2 => "2" | 3 => "3" | 4 => "4"
  | 5 => "5" | 6 => "6" | 7 => "7" | 8 => "8" | 9 => "9"
  | 10 => "A" | 11 => "B" | 12 => "C" | 13 => "D" | 14 => "E"
  | _ => "F"
  end%char.

Definition unreserved (c : ascii) : bool :=
  is_alnum c || Ascii.eqb c "*" || Ascii.eqb c "-" || Ascii.eqb c "."
  || Ascii.eqb c "_".

Definition encode_char (c : ascii) : string :=
  if unreserved c then String c EmptyString
  else if Ascii.eqb c " " then "+"
  else String "%" (String (hex_digit (nat_of_ascii c / 16))
                   (String (hex_digit (nat_of_ascii c mod 16)) EmptyString)).

Fixpoint encode (s : string) : string :=
  match s with
  | EmptyString => EmptyString
  | String c rest => encode_char c ++ encode rest
  end.

Definition hex_value (c : ascii) : option nat :=
  if is_digit c then Some (nat_of_ascii c - 48)
  else if in_range "A" "F" c then Some (nat_of_ascii c - 55)
  else if in_range "a" "f" c then Some (nat_of_ascii c - 87)
  else None.

(** The matching parser: [+] is a space, [%] with two hexadecimal digits
    is that code unit, anything else stands for itself. *)
Fixpoint decode (s : string) : string :=
  match s with
  | EmptyString => EmptyString
  | String c rest =>
    if Ascii.eqb c "+" then String " " (decode rest)
    else if Ascii.eqb c "%" then
      match rest with
      | String h (String l rest') =>
        match hex_value h, hex_value l with
        | Some hv, Some lv => String (ascii_of_nat (16 * hv + lv)) (decode rest')
        | _, _ => String c (decode rest)
        end
      | _ => String c (decode rest)
      end
    else String c (decode rest)
  end.

(** [URLSearchParams]: an ordered list of name and value pairs. *)
Definition URLSearchParams : Type := list (string * string).

(** [searchParams.toString()] *)
Fixpoint toString (p : URLSearchParams) : string :=
  match p with
  | [] => ""
  | [(k, v)] => encode k ++ "=" ++ encode v
  | (k, v) :: rest => encode k ++ "=" ++ encode v ++ "&" ++ toString rest
  end.

(** [searchParams.set(name, value)]: the first pair of that name takes
    the value and the later ones go; without one, the pair is appended. *)
Fixpoint set (p : URLSearchParams) (name value : string) : URLSearchParams :=
  match p with
  | [] => [(name, value)]
  | (k, v) :: rest =>
    if k =? name then (name, value) :: filter (fun kv => negb (fst kv =? name)) rest
    else (k, v) :: set rest name value
  end.

Record URL : Type := {
  origin : string;
  pathname : string;
  searchParams : URLSearchParams
}.

(** [new URL(path, base)] for an absolute path without query: the origin
    of the base, that path, no query. *)
Definition new_URL (path : string) (base : URL) : URL :=
  {| origin := origin base; pathname := path; searchParams := [] |}.

(** [url.href] *)
Definition href (u : URL) : string :=
  origin u ++ pathname u ++
  match searchParams u with
  | [] => ""
  | p => "?" ++ toString p
  end.

End Url.

Import Url.

(** ** The Route Guard ([proxy.ts]) *)

Record NextRequest : Type := {
  url : URL;
  auth : option Session
}.

(** [req.nextUrl] *)
Definition nextUrl (req : NextRequest) : URL := url req.

Inductive NextResponse : Type :=
| next
| redirect (location : string).

(** Whether [req.auth] holds a session. *)
Definition authenticated (req : NextRequest) : bool :=
  match auth req with
  | Some _ => true
  | None => false
  end.

(** The value the guard stores under [from]. *)
Definition from_value (req : NextRequest) : string :=
  let search := Url.toString (searchParams (nextUrl req)) in
  pathname (nextUrl req) ++ (if negb (search =? "") then "?" ++ search else "").

(** The handler wrapped by [auth]. *)
Definition handler (req : NextRequest) : NextResponse :=
  let pathname := pathname (nextUrl req) in
  let searchParams := searchParams (nextUrl req) in
  (* Protect dashboard routes *)
  if startsWith pathname "/dashboard" && negb (authenticated req) then
    let url := new_URL "/auth/v1/login" (url req) in
    let search := Url.toString searchParams in
    let url := {| origin := origin url; pathname := Url.pathname url;
                  searchParams :=
                    Url.set (Url.searchParams url) "from"
                            (pathname ++ (if negb (search =? "") then "?" ++ search else "")) |} in
    redirect (href url)
  else
    next.

(** [config.matcher] *)
Definition matcher : list string := ["/dashboard/:path*"].

(** Drop the suffix [suf] from [s], when [s] ends with it. *)
Fixpoint strip_suffix (suf s : string) : option string :=
  if s =? suf then Some EmptyString
  else match s with
       | EmptyString => None
       | String c rest =>
         match strip_suffix suf rest with
         | Some p => Some (String c p)
         | None => None
         end
       end.

(** Modelled from the spec: how the framework reads an entry of the
    protected-path set (the reader is part of Next.js, the entry is in
    [proxy.ts]).  An entry is a literal path, or a path followed by the named
    wildcard [/:path*], which stands for no, one or several further
    segments. *)
Definition matches (pattern path : string) : bool :=
  match strip_suffix "/:path*" pattern with
  | Some base => (path =? base) || startsWith path (base ++ "/")
  | None => path =? pattern
  end.

(** The guard as deployed: the handler runs on the requests the matcher
    selects, every other request passes untouched. *)
Definition proxy (req : NextRequest) : NextResponse :=
  if existsb (fun pattern => matches pattern (pathname (nextUrl req))) matcher
  then handler req
  else next.

(** What every validated call of [authorize] leaves in the trace before
    it looks at the result of the lookup. *)
Definition prologue (c : Credentials) (e : string) : list Event :=
  [ConsoleLog "[AUTH] authorize called with:" (LogCredentials c);
   ConsoleLog "[AUTH] Looking for user:" (LogString e);
   FindUnique e].

(** ** Vocabulary of the properties *)

(** The form passes [loginSchema]: it carries the address [e], the
    password [p], and [f] is its [from] field or, without one, the
    default. *)
Definition submits (isEmail : string -> bool) (fd : FormData) (e p f : string) : Prop :=
  FormData_get fd "email" = VString e /\ isEmail e = true /\
  FormData_get fd "password" = VString p /\ 6 <= String.length p /\
  or_else (FormData_get fd "from") (VString "/dashboard/default") = VString f.

(** The credentials [signIn] hands to [authorize]. *)
Definition credentials_of (e p : string) : Credentials :=
  {| cred_email := VString e; cred_password := VString p |}.

(** The token of a session established for the record [u]. *)
Definition token_for (u : Prisma.User) : JWT :=
  {| token_sub := Some (Prisma.id u);
     token_name := Prisma.name u;
     token_email := Some (Prisma.email u);
     token_role := Some (Prisma.role u);
     token_id := Some (Prisma.id u) |}.

(** The two messages [loginAction] can return. *)
Definition invalid_credentials : LoginState :=
  {| error := Some "Invalid email or password"; success := None |}.

Definition something_went_wrong : LoginState :=
  {| error := Some "Something went wrong. Please try again."; success := None |}.

Definition is_redirect {A} (o : Outcome A) : bool :=
  match o with
  | Throw (NEXT_REDIRECT _) => true
  | _ => false
  end.

Definition is_AuthError (e : Exn) : bool :=
  match e with
  | AuthError _ => true
  | _ => false
  end.

(** ** A sample deployment, for running the definitions *)

(** A stand-in for [bcrypt.compare] in the examples: the hash of a
    password is the password behind a fixed tag. *)
Definition sample_compare (password hash : string) : bool :=
  hash =? "$2b$12$" ++ password.

(** The record [prisma/seed.ts] creates. *)
Definition seed_admin : Prisma.User :=
  {| Prisma.id := "cuid-admin";
     Prisma.email := "admin@example.com";
     Prisma.name := Some "Admin";
     Prisma.passwordHash := "$2b$12$admin123";
     Prisma.role := "admin";
     Prisma.createdAt := 0 |}.

Definition seeded : World :=
  {| store := {| Prisma.reachable := true; Prisma.users := [seed_admin] |};
     secret := Some "AUTH_SECRET";
     cookie := None;
     trace := [] |}.

Definition initialState : LoginState := {| error := None; success := Some false |}.

(** The form as the login page submits it. *)
Definition form (email password : string) (from : option string) : FormData :=
  (match from with
   | Some f => [("from", EntryString f)]
   | None => []
   end ++
   [("email", EntryString email); ("password", EntryString password)])%list.

(** ** The login page ([login-form.tsx]) *)

(** [searchParams.get(name)]: the first value stored under the name, [null]
    when there is none. *)
Fixpoint URLSearchParams_get (p : URLSearchParams) (name : string) : Value :=
  match p with
  | [] => VNull
  | (k, v) :: rest => if k =? name then VString v else URLSearchParams_get rest name
  end.

(** One [name=value] sequence of a query: it is cut at its first equals
    sign (without one the value is empty), then both halves are decoded. *)
Definition parse_pair (sequence : string) : string * string :=
  match split_first "=" sequence with
  | Some (n, v) => (Url.decode n, Url.decode v)
  | None => (Url.decode sequence, "")
  end.

(** The [application/x-www-form-urlencoded] parser that fills a
    [URLSearchParams] from a query: the query is cut at every ampersand and
    the empty sequences are skipped. *)
Definition parse_query (query : string) : URLSearchParams :=
  map parse_pair (filter (fun s => negb (s =? "")) (split_all "&" query)).

(** The [URL] object the guard builds before it redirects. *)
Definition login_url (req : NextRequest) : URL :=
  {| origin := origin (url req);
     pathname := "/auth/v1/login";
     searchParams := Url.set [] "from" (from_value req) |}.

(** The request a browser makes for the address [href u]: its query is what
    the parser reads from the serialised one. *)
Definition request_for (u : URL) (a : option Session) : NextRequest :=
  {| url := {| origin := origin u;
               pathname := pathname u;
               searchParams := parse_query (Url.toString (searchParams u)) |};
     auth := a |}.

(** [const from = searchParams.get("from") || "/dashboard/default"] of
    [LoginForm]. *)
Definition LoginForm_from (searchParams : URLSearchParams) : string :=
  match or_else (URLSearchParams_get searchParams "from") (VString "/dashboard/default") with
  | VString s => s
  | _ => "/dashboard/default" (* not reached: [get] yields a string or [null] *)
  end.

(** What the form of [LoginForm] submits: its three named controls in
    document order, the hidden [from] first, then what was typed into
    [email] and [password]. *)
Definition LoginForm_submit (searchParams : URLSearchParams)
           (email password : string) : FormData :=
  [("from", EntryString (LoginForm_from searchParams));
   ("email", EntryString email);
   ("password", EntryString password)].

(** ** The seed script ([prisma/seed.ts]) *)

(** The [create] argument of [upsert]; a column with a default may be left
    out. *)
Record UserCreateInput : Type := {
  create_email : string;
  create_name : option string;
  create_role : option string;
  create_passwordHash : string
}.

(** The row the store inserts: [id] and [createdAt] are generated
    ([cuid()], [now()]), and [role] defaults to ["user"]. *)
Definition create_user (cuid : string) (now : nat) (c : UserCreateInput) : Prisma.User :=
  {| Prisma.id := cuid;
     Prisma.email := create_email c;
     Prisma.name := create_name c;
     Prisma.passwordHash := create_passwordHash c;
     Prisma.role := match create_role c with Some r => r | None => "user" end;
     Prisma.createdAt := now |}.

Definition with_users (w : World) (us : list Prisma.User) : World :=
  {| store := {| Prisma.reachable := Prisma.reachable (store w); Prisma.users := us |};
     secret := secret w; cookie := cookie w; trace := trace w |}.

(** [prisma.user.upsert({ where: { email }, update: {}, create })]: a row
    with that email is returned as it is (the update is empty); without one
    the [create] row is inserted, unless its own email is taken, which the
    unique column refuses. *)
Definition prisma_user_upsert (cuid : string) (now : nat)
           (where_email : string) (create : UserCreateInput) : M Prisma.User :=
  fun w =>
    if negb (Prisma.reachable (store w)) then (Throw PrismaError, w)
    else
      match Prisma.lookup (store w) where_email with
      | Some u => (Return u, w)
      | None =>
        match Prisma.lookup (store w) (create_email create) with
        | Some _ => (Throw PrismaError, w)
        | None =>
          let u := create_user cuid now create in
          (Return u, with_users w (Prisma.users (store w) ++ [u])%list)
        end
      end.

(** How the script ends: the exit code of the process and what it wrote
    with [console.error]. *)
Record Exit : Type := {
  exit_code : nat;
  stderr : list (string * Exn)
}.

Section Seed.

(** [bcrypt.hash(password, rounds)] belongs to the library. *)
Variable bcrypt_hash : string -> nat -> string.

(** [main] of the seed script. *)
Definition main (cuid : string) (now : nat) : M unit :=
  let passwordHash := bcrypt_hash "admin123" 12 in
  _ <- prisma_user_upsert cuid now "admin@example.com"
         {| create_email := "admin@example.com";
            create_name := Some "Admin";
            create_role := Some "admin";
            create_passwordHash := passwordHash |} ;;
  ret tt.

(** [main().then(...).catch(...)]: a run that throws is reported and ends
    the process with code 1.  Closing the connection, which both branches
    do, is left out. *)
Definition seed_script (cuid : string) (now : nat) (w : World) : Exit * World :=
  match main cuid now w with
  | (Return _, w') => ({| exit_code := 0; stderr := [] |}, w')
  | (Throw e, w') =>
    ({| exit_code := 1; stderr := [("Error seeding database", e)] |}, w')
  end.

End Seed.

(** ** Further vocabulary *)

(** The characters a serialised query is made of. *)
Definition url_safe (c : ascii) : bool :=
  unreserved c || Ascii.eqb c "+" || Ascii.eqb c "%" .

(** The characters of a query as [toString] writes it: the above and the
    two separators. *)
Definition query_char (c : ascii) : bool :=
  url_safe c || Ascii.eqb c "=" || Ascii.eqb c "&".

(** The row the seed script asks the store to create. *)
Definition admin_row (bcrypt_hash : string -> nat -> string)
           (cuid : string) (now : nat) : Prisma.User :=
  {| Prisma.id := cuid;
     Prisma.email := "admin@example.com";
     Prisma.name := Some "Admin";
     Prisma.passwordHash := bcrypt_hash "admin123" 12;
     Prisma.role := "admin";
     Prisma.createdAt := now |}.

(** [c] is not the separator [sep]. *)
Definition differs (sep : ascii) (c : ascii) : bool := negb (Ascii.eqb c sep).


(** The object [authorize] builds from a row. *)
Definition user_of (u : Prisma.User) : AuthJs.User :=
  {| user_id := Prisma.id u;
     user_email := Prisma.email u;
     user_name := Prisma.name u;
     user_role := Prisma.role u |}.

(** The five ways a call of [authorize] can go. *)
Inductive AuthorizeRun (isEmail : string -> bool) (cmp : string -> string -> bool)
          (c : Credentials) (w : World) :
  Outcome (option AuthJs.User) -> list Event -> Prop :=
| run_invalid issues :
    schema_safeParse isEmail c = inr issues ->
    AuthorizeRun isEmail cmp c w (Return None)
      [ConsoleLog "[AUTH] authorize called with:" (LogCredentials c);
       ConsoleLog "[AUTH] Validation failed:" (LogIssues issues)]
| run_store_down e p :
    schema_safeParse isEmail c = inl (e, p) ->
    Prisma.reachable (store w) = false ->
    AuthorizeRun isEmail cmp c w (Throw PrismaError) (prologue c e)
| run_unknown e p :
    schema_safeParse isEmail c = inl (e, p) ->
    Prisma.reachable (store w) = true ->
    Prisma.lookup (store w) e = None ->
    AuthorizeRun isEmail cmp c w (Return None)
      (prologue c e ++ [ConsoleLog "[AUTH] User not found" LogNothing])
| run_wrong_password e p u :
    schema_safeParse isEmail c = inl (e, p) ->
    Prisma.reachable (store w) = true ->
    Prisma.lookup (store w) e = Some u ->
    cmp p (Prisma.passwordHash u) = false ->
    AuthorizeRun isEmail cmp c w (Return None)
      (prologue c e ++
       [ConsoleLog "[AUTH] User found, checking password" LogNothing;
        BcryptCompare p (Prisma.passwordHash u);
        ConsoleLog "[AUTH] Password valid:" (LogBool false)])
| run_success e p u :
    schema_safeParse isEmail c = inl (e, p) ->
    Prisma.reachable (store w) = true ->
    Prisma.lookup (store w) e = Some u ->
    cmp p (Prisma.passwordHash u) = true ->
    AuthorizeRun isEmail cmp c w (Return (Some (user_of u)))
      (prologue c e ++
       [ConsoleLog "[AUTH] User found, checking password" LogNothing;
        BcryptCompare p (Prisma.passwordHash u);
        ConsoleLog "[AUTH] Password valid:" (LogBool true);
        ConsoleLog "[AUTH] Login successful for:" (LogString (Prisma.email u))]).

(** A stand-in for [bcrypt.hash] in the examples, matching
    [sample_compare]. *)
Definition sample_hash (password : string) (rounds : nat) : string :=
  "$2b$12$" ++ password.

(** * Properties *)

Example email_regex_admin : email_regex "admin@example.com" = true.
Proof. reflexivity. Qed.

Example email_regex_rejects :
  map email_regex ["not-an-email"; ""; "a@b"; ".a@b.co"; "a..b@c.de"; "a@b@c.de"; "a@-b.de"]
  = [false; false; false; false; false; false; false].
Proof. reflexivity. Qed.

Example encode_reports :
  Url.encode "/dashboard/reports?x=1" = "%2Fdashboard%2Freports%3Fx%3D1".
Proof. reflexivity. Qed.

Example login_admin :
  loginAction email_regex sample_compare initialState
              (form "admin@example.com" "admin123" (Some "/dashboard/crm")) seeded
  = (Throw (NEXT_REDIRECT "/dashboard/crm"),
     {| store := store seeded; secret := secret seeded;
        cookie := Some {| token_sub := Some "cuid-admin"; token_name := Some "Admin";
                          token_email := Some "admin@example.com";
                          token_role := Some "admin"; token_id := Some "cuid-admin" |};
        trace := [ConsoleLog "[AUTH] authorize called with:"
                    (LogCredentials {| cred_email := VString "admin@example.com";
                                       cred_password := VString "admin123" |});
                  ConsoleLog "[AUTH] Looking for user:" (LogString "admin@example.com");
                  FindUnique "admin@example.com";
                  ConsoleLog "[AUTH] User found, checking password" LogNothing;
                  BcryptCompare "admin123" "$2b$12$admin123";
                  ConsoleLog "[AUTH] Password valid:" (LogBool true);
                  ConsoleLog "[AUTH] Login successful for:" (LogString "admin@example.com")] |}).
Proof. reflexivity. Qed.

Example login_ghost :
  fst (loginAction email_regex sample_compare initialState
                   (form "ghost@example.com" "admin123" None) seeded)
  = Return {| error := Some "Invalid email or password"; success := None |}.
Proof. reflexivity. Qed.

Example login_short :
  fst (loginAction email_regex sample_compare initialState
                   (form "admin@example.com" "abc" None) seeded)
  = Throw (ZodError [too_small "password" "Password must be at least 6 characters"]).
Proof. reflexivity. Qed.

Example guard_reports :
  proxy {| url := {| origin := "http://localhost:3000";
                     pathname := "/dashboard/reports";
                     searchParams := [("x", "1")] |};
           auth := None |}
  = redirect "http://localhost:3000/auth/v1/login?from=%2Fdashboard%2Freports%3Fx%3D1".
Proof. reflexivity. Qed.

Example matcher_samples :
  map (matches "/dashboard/:path*")
      ["/dashboard"; "/dashboard/"; "/dashboard/default"; "/dashboard/a/b";
       "/dashboards"; "/auth/v1/login"; "/"]
  = [true; true; true; true; false; false; false].
Proof. reflexivity. Qed.

(** ** The trace only grows *)

Lemma add_trace_app (w : World) (a b : list Event) :
  add_trace (add_trace w a) b = add_trace w (a ++ b).
Proof.
  unfold add_trace; simpl. now rewrite <- app_assoc.
Qed.

Lemma verifier_calls_app (a b : list Event) :
  verifier_calls (a ++ b) = verifier_calls a + verifier_calls b.
Proof.
  induction a as [|e a IH]; simpl; [reflexivity|].
  destruct e; simpl; now rewrite IH.
Qed.

Lemma append_assoc (a b c : string) : (a ++ b) ++ c = a ++ (b ++ c).
Proof.
  induction a as [|x a IH]; simpl; [reflexivity | now rewrite IH].
Qed.

Lemma startsWith_app (p rest : string) : startsWith (p ++ rest) p = true.
Proof.
  unfold startsWith. induction p as [|c p IH]; simpl.
  - now destruct rest.
  - destruct (Ascii.ascii_dec c c); [exact IH | congruence].
Qed.

Lemma startsWith_split (s p : string) :
  startsWith s p = true -> exists rest, s = p ++ rest.
Proof.
  unfold startsWith. revert s.
  induction p as [|c p IH]; intros s H.
  - now exists s.
  - destruct s as [|d s]; simpl in H; [discriminate|].
    destruct (Ascii.ascii_dec c d) as [->|n]; [|discriminate].
    destruct (IH s H) as [rest ->]. now exists rest.
Qed.

Lemma startsWith_trans (s p q : string) :
  startsWith s (p ++ q) = true -> startsWith s p = true.
Proof.
  intros H. destruct (startsWith_split _ _ H) as [rest ->].
  rewrite append_assoc. apply startsWith_app.
Qed.

(** ** [authorize], case by case *)

Section AuthorizeFacts.

Variable isEmail : string -> bool.
Variable bcrypt_compare : string -> string -> bool.

Ltac run_authorize :=
  unfold authorize, prisma_user_findUnique, bcrypt_compare_call, console_log;
  unfold bind, emit, ret, throw; simpl.

Lemma authorize_invalid (c : Credentials) (w : World) (issues : list ZodIssue) :
  schema_safeParse isEmail c = inr issues ->
  authorize isEmail bcrypt_compare c w
  = (Return None,
     add_trace w [ConsoleLog "[AUTH] authorize called with:" (LogCredentials c);
                  ConsoleLog "[AUTH] Validation failed:" (LogIssues issues)]).
Proof.
  intros H. run_authorize. rewrite H; simpl.
  now rewrite add_trace_app.
Qed.

Lemma authorize_store_down (c : Credentials) (w : World) (e p : string) :
  schema_safeParse isEmail c = inl (e, p) ->
  Prisma.reachable (store w) = false ->
  authorize isEmail bcrypt_compare c w = (Throw PrismaError, add_trace w (prologue c e)).
Proof.
  intros H R. run_authorize. rewrite H; simpl. rewrite R.
  now rewrite !add_trace_app.
Qed.

Lemma authorize_unknown (c : Credentials) (w : World) (e p : string) :
  schema_safeParse isEmail c = inl (e, p) ->
  Prisma.reachable (store w) = true ->
  Prisma.lookup (store w) e = None ->
  authorize isEmail bcrypt_compare c w
  = (Return None,
     add_trace w (prologue c e ++ [ConsoleLog "[AUTH] User not found" LogNothing])).
Proof.
  intros H R L. run_authorize. rewrite H; simpl. rewrite R, L; simpl.
  now rewrite !add_trace_app.
Qed.

Lemma authorize_wrong_password (c : Credentials) (w : World) (e p : string)
      (u : Prisma.User) :
  schema_safeParse isEmail c = inl (e, p) ->
  Prisma.reachable (store w) = true ->
  Prisma.lookup (store w) e = Some u ->
  bcrypt_compare p (Prisma.passwordHash u) = false ->
  authorize isEmail bcrypt_compare c w
  = (Return None,
     add_trace w (prologue c e ++
                  [ConsoleLog "[AUTH] User found, checking password" LogNothing;
                   BcryptCompare p (Prisma.passwordHash u);
                   ConsoleLog "[AUTH] Password valid:" (LogBool false)])).
Proof.
  intros H R L C. run_authorize. rewrite H; simpl. rewrite R, L; simpl.
  rewrite C; simpl. now rewrite !add_trace_app.
Qed.

Lemma authorize_success (c : Credentials) (w : World) (e p : string)
      (u : Prisma.User) :
  schema_safeParse isEmail c = inl (e, p) ->
  Prisma.reachable (store w) = true ->
  Prisma.lookup (store w) e = Some u ->
  bcrypt_compare p (Prisma.passwordHash u) = true ->
  authorize isEmail bcrypt_compare c w
  = (Return (Some {| user_id := Prisma.id u;
                     user_email := Prisma.email u;
                     user_name := Prisma.name u;
                     user_role := Prisma.role u |}),
     add_trace w (prologue c e ++
                  [ConsoleLog "[AUTH] User found, checking password" LogNothing;
                   BcryptCompare p (Prisma.passwordHash u);
                   ConsoleLog "[AUTH] Password valid:" (LogBool true);
                   ConsoleLog "[AUTH] Login successful for:"
                              (LogString (Prisma.email u))])).
Proof.
  intros H R L C. run_authorize. rewrite H; simpl. rewrite R, L; simpl.
  rewrite C; simpl. now rewrite !add_trace_app.
Qed.

End AuthorizeFacts.

(** ** [loginSchema] and [signIn], case by case *)

Section FlowFacts.

Variable isEmail : string -> bool.
Variable bcrypt_compare : string -> string -> bool.

Lemma safeParse_valid (e p : string) :
  isEmail e = true -> 6 <= String.length p ->
  schema_safeParse isEmail (credentials_of e p) = inl (e, p).
Proof.
  intros He Hp. apply Nat.leb_le in Hp.
  unfold schema_safeParse, z_string_email, z_string_min, credentials_of,
    cred_email, cred_password.
  now rewrite He, Hp.
Qed.

Lemma safeParse_inv (c : Credentials) (e p : string) :
  schema_safeParse isEmail c = inl (e, p) ->
  cred_email c = VString e /\ isEmail e = true /\
  cred_password c = VString p /\ 6 <= String.length p.
Proof.
  unfold schema_safeParse, z_string_email, z_string_min.
  destruct (cred_email c) as [| |e'|]; try discriminate.
  - destruct (cred_password c) as [| |p'|]; try discriminate;
      destruct (isEmail e') eqn:He; try discriminate;
      destruct (Nat.leb 6 (String.length p')) eqn:Hp; try discriminate.
    intros [= <- <-]. apply Nat.leb_le in Hp. now repeat split.
Qed.

Lemma parse_valid (fd : FormData) (e p f : string) (w : World) :
  submits isEmail fd e p f ->
  loginSchema_parse isEmail
    (FormData_get fd "email") (FormData_get fd "password")
    (or_else (FormData_get fd "from") (VString "/dashboard/default")) w
  = (Return {| data_email := e; data_password := p; data_from := Some f |}, w).
Proof.
  intros (He & Hv & Hp & Hl & Hf). rewrite He, Hp, Hf.
  unfold loginSchema_parse, z_string_email, z_string_min, z_string_optional.
  apply Nat.leb_le in Hl. now rewrite Hv, Hl.
Qed.

(** A parse either throws its issues or returns the data of a form that
    [submits]; it never touches the world. *)
Lemma parse_cases (fd : FormData) (w : World) :
  (exists issues,
      issues <> [] /\
      loginSchema_parse isEmail
        (FormData_get fd "email") (FormData_get fd "password")
        (or_else (FormData_get fd "from") (VString "/dashboard/default")) w
      = (Throw (ZodError issues), w))
  \/ (exists e p f, submits isEmail fd e p f).
Proof.
  unfold submits, loginSchema_parse, z_string_email, z_string_min, z_string_optional.
  destruct (FormData_get fd "email") as [| |e|fe];
    try (left; eexists; split; [|reflexivity]; discriminate).
  destruct (isEmail e) eqn:He;
    [|left; eexists; split; [|reflexivity]; discriminate].
  destruct (FormData_get fd "password") as [| |p|fp];
    try (left; eexists; split; [|reflexivity]; discriminate).
  destruct (Nat.leb 6 (String.length p)) eqn:Hp;
    [|left; eexists; split; [|reflexivity]; discriminate].
  apply Nat.leb_le in Hp.
  destruct (FormData_get fd "from") as [| |f|ff]; simpl.
  - right. exists e, p, "/dashboard/default". repeat split; auto.
  - right. exists e, p, "/dashboard/default". repeat split; auto.
  - right. unfold or_else; simpl. destruct (f =? "")%string; simpl.
    + exists e, p, "/dashboard/default". repeat split; auto.
    + exists e, p, f. repeat split; auto.
  - left; eexists; split; [|reflexivity]; discriminate.
Qed.

(** [signIn] on validated credentials, by what the store and the verifier
    answer. *)
Lemma signIn_no_secret (o : SignInOptions) (w : World) :
  secret w = None ->
  signIn isEmail bcrypt_compare "credentials" o w
  = (Throw (AuthError "MissingSecret"), w).
Proof.
  intros H. unfold signIn; simpl. now rewrite H.
Qed.

Lemma signIn_store_down (e p : string) (r : option string) (w : World) :
  isEmail e = true -> 6 <= String.length p ->
  secret w <> None ->
  Prisma.reachable (store w) = false ->
  signIn isEmail bcrypt_compare "credentials"
         {| opt_email := e; opt_password := p; redirectTo := r |} w
  = (Throw (AuthError "CallbackRouteError"),
     add_trace w (prologue (credentials_of e p) e)).
Proof.
  intros He Hp Hs Hr. unfold signIn; simpl.
  destruct (secret w); [|congruence].
  fold (credentials_of e p).
  now rewrite (authorize_store_down isEmail bcrypt_compare _ _ _ _ (safeParse_valid _ _ He Hp) Hr).
Qed.

Lemma signIn_unknown (e p : string) (r : option string) (w : World) :
  isEmail e = true -> 6 <= String.length p ->
  secret w <> None ->
  Prisma.reachable (store w) = true ->
  Prisma.lookup (store w) e = None ->
  signIn isEmail bcrypt_compare "credentials"
         {| opt_email := e; opt_password := p; redirectTo := r |} w
  = (Throw (AuthError "CredentialsSignin"),
     add_trace w (prologue (credentials_of e p) e ++
                  [ConsoleLog "[AUTH] User not found" LogNothing])).
Proof.
  intros He Hp Hs Hr Hl. unfold signIn; simpl.
  destruct (secret w); [|congruence].
  fold (credentials_of e p).
  now rewrite (authorize_unknown isEmail bcrypt_compare _ _ _ _ (safeParse_valid _ _ He Hp) Hr Hl).
Qed.

Lemma signIn_wrong_password (e p : string) (r : option string) (w : World)
      (u : Prisma.User) :
  isEmail e = true -> 6 <= String.length p ->
  secret w <> None ->
  Prisma.reachable (store w) = true ->
  Prisma.lookup (store w) e = Some u ->
  bcrypt_compare p (Prisma.passwordHash u) = false ->
  signIn isEmail bcrypt_compare "credentials"
         {| opt_email := e; opt_password := p; redirectTo := r |} w
  = (Throw (AuthError "CredentialsSignin"),
     add_trace w (prologue (credentials_of e p) e ++
                  [ConsoleLog "[AUTH] User found, checking password" LogNothing;
                   BcryptCompare p (Prisma.passwordHash u);
                   ConsoleLog "[AUTH] Password valid:" (LogBool false)])).
Proof.
  intros He Hp Hs Hr Hl Hc. unfold signIn; simpl.
  destruct (secret w); [|congruence].
  fold (credentials_of e p).
  now rewrite (authorize_wrong_password isEmail bcrypt_compare _ _ _ _ _ (safeParse_valid _ _ He Hp) Hr Hl Hc).
Qed.

Lemma signIn_success (e p f : string) (w : World) (u : Prisma.User) :
  isEmail e = true -> 6 <= String.length p ->
  secret w <> None ->
  Prisma.reachable (store w) = true ->
  Prisma.lookup (store w) e = Some u ->
  bcrypt_compare p (Prisma.passwordHash u) = true ->
  signIn isEmail bcrypt_compare "credentials"
         {| opt_email := e; opt_password := p; redirectTo := Some f |} w
  = (Throw (NEXT_REDIRECT f),
     {| store := store w; secret := secret w; cookie := Some (token_for u);
        trace := trace w ++
                 prologue (credentials_of e p) e ++
                 [ConsoleLog "[AUTH] User found, checking password" LogNothing;
                  BcryptCompare p (Prisma.passwordHash u);
                  ConsoleLog "[AUTH] Password valid:" (LogBool true);
                  ConsoleLog "[AUTH] Login successful for:"
                             (LogString (Prisma.email u))] |}).
Proof.
  intros He Hp Hs Hr Hl Hc. unfold signIn; simpl.
  destruct (secret w) eqn:Hsec; [|congruence].
  fold (credentials_of e p).
  rewrite (authorize_success isEmail bcrypt_compare _ _ _ _ _ (safeParse_valid _ _ He Hp) Hr Hl Hc).
  unfold bind, set_cookie, throw, add_trace; simpl. now rewrite Hsec.
Qed.

(** [loginAction] is its handler applied to what [signIn] throws, once the
    form is valid. *)
Lemma loginAction_with_valid (signIn : SignIn) (prev : LoginState)
      (fd : FormData) (e p f : string) (w : World) :
  submits isEmail fd e p f ->
  loginAction_with isEmail signIn prev fd w
  = match signIn "credentials"
                 {| opt_email := e; opt_password := p; redirectTo := Some f |} w with
    | (Return _, w') => (Return {| error := None; success := Some true |}, w')
    | (Throw (AuthError type), w') =>
      if (type =? "CredentialsSignin")%string then (Return invalid_credentials, w')
      else (Return something_went_wrong, w')
    | (Throw x, w') => (Throw x, w')
    end.
Proof.
  intros H. unfold loginAction_with, try_catch, bind.
  rewrite (parse_valid _ _ _ _ w H); simpl.
  destruct (signIn "credentials" _ w) as [[[]|x] w']; [reflexivity|].
  destruct x as [i|ty|u|]; try reflexivity.
  unfold ret. now destruct (ty =? "CredentialsSignin")%string.
Qed.

Lemma loginAction_with_invalid (signIn : SignIn) (prev : LoginState)
      (fd : FormData) (issues : list ZodIssue) (w : World) :
  loginSchema_parse isEmail
    (FormData_get fd "email") (FormData_get fd "password")
    (or_else (FormData_get fd "from") (VString "/dashboard/default")) w
  = (Throw (ZodError issues), w) ->
  loginAction_with isEmail signIn prev fd w = (Throw (ZodError issues), w).
Proof.
  intros H. unfold loginAction_with, try_catch, bind. now rewrite H.
Qed.

End FlowFacts.

(** ** The login flow *)

Lemma lookup_email (d : Prisma.Db) (e : string) (u : Prisma.User) :
  Prisma.lookup d e = Some u -> Prisma.email u = e.
Proof.
  unfold Prisma.lookup. intros H.
  apply find_some in H. now apply String.eqb_eq.
Qed.

(** C1.  A login with an address that has no record and a login with the
    wrong password for an existing record end alike: [authorize] returns
    [null] in both, [signIn] reports the same error code,
    [CredentialsSignin], and [loginAction] returns the same state with the
    same message; neither sets a session cookie. *)
Theorem unknown_email_same_as_wrong_password :
  forall (isEmail : string -> bool) (bcrypt_compare : string -> string -> bool)
         (prev1 prev2 : LoginState) (fd1 fd2 : FormData)
         (e1 p1 f1 e2 p2 f2 : string) (w : World) (u : Prisma.User),
    submits isEmail fd1 e1 p1 f1 ->
    submits isEmail fd2 e2 p2 f2 ->
    secret w <> None ->
    Prisma.reachable (store w) = true ->
    Prisma.lookup (store w) e1 = None ->
    Prisma.lookup (store w) e2 = Some u ->
    bcrypt_compare p2 (Prisma.passwordHash u) = false ->
    let ghost := loginAction isEmail bcrypt_compare prev1 fd1 w in
    let wrong := loginAction isEmail bcrypt_compare prev2 fd2 w in
    fst (authorize isEmail bcrypt_compare (credentials_of e1 p1) w) = Return None /\
    fst (authorize isEmail bcrypt_compare (credentials_of e2 p2) w) = Return None /\
    fst (signIn isEmail bcrypt_compare "credentials"
                {| opt_email := e1; opt_password := p1; redirectTo := Some f1 |} w)
    = Throw (AuthError "CredentialsSignin") /\
    fst (signIn isEmail bcrypt_compare "credentials"
                {| opt_email := e2; opt_password := p2; redirectTo := Some f2 |} w)
    = Throw (AuthError "CredentialsSignin") /\
    fst ghost = Return {| error := Some "Invalid email or password"; success := None |} /\
    fst wrong = fst ghost /\
    cookie (snd ghost) = cookie w /\
    cookie (snd wrong) = cookie w.
Proof.
  intros isEmail cmp prev1 prev2 fd1 fd2 e1 p1 f1 e2 p2 f2 w u
         S1 S2 Hsec Hr L1 L2 C2 ghost wrong.
  pose proof S1 as (_ & He1 & _ & Hp1 & _).
  pose proof S2 as (_ & He2 & _ & Hp2 & _).
  subst ghost wrong. unfold loginAction.
  rewrite (loginAction_with_valid _ _ _ _ _ _ _ w S1).
  rewrite (loginAction_with_valid _ _ _ _ _ _ _ w S2).
  rewrite (signIn_unknown isEmail cmp _ _ (Some f1) w He1 Hp1 Hsec Hr L1).
  rewrite (signIn_wrong_password isEmail cmp _ _ (Some f2) w u He2 Hp2 Hsec Hr L2 C2).
  rewrite (authorize_unknown isEmail cmp _ _ _ _ (safeParse_valid _ _ _ He1 Hp1) Hr L1).
  rewrite (authorize_wrong_password isEmail cmp _ _ _ _ _
             (safeParse_valid _ _ _ He2 Hp2) Hr L2 C2).
  simpl. repeat split.
Qed.

Lemma unknown_email_same_as_wrong_password_witness :
  let ghost := loginAction email_regex sample_compare initialState
                           (form "ghost@example.com" "admin123" None) seeded in
  let wrong := loginAction email_regex sample_compare initialState
                           (form "admin@example.com" "letmein" (Some "/dashboard/crm"))
                           seeded in
  fst ghost = Return {| error := Some "Invalid email or password"; success := None |} /\
  fst wrong = fst ghost.
Proof.
  assert (S1 : submits email_regex (form "ghost@example.com" "admin123" None)
                       "ghost@example.com" "admin123" "/dashboard/default")
    by (unfold submits; simpl; repeat split; lia).
  assert (S2 : submits email_regex
                       (form "admin@example.com" "letmein" (Some "/dashboard/crm"))
                       "admin@example.com" "letmein" "/dashboard/crm")
    by (unfold submits; simpl; repeat split; lia).
  assert (Hsec : secret seeded <> None) by discriminate.
  pose proof (unknown_email_same_as_wrong_password
                email_regex sample_compare initialState initialState _ _ _ _ _ _ _ _
                seeded seed_admin S1 S2 Hsec eq_refl eq_refl eq_refl eq_refl) as H.
  cbv zeta in H. destruct H as (_ & _ & _ & _ & Hg & Hw & _).
  split; [exact Hg | exact Hw].
Defined.

(** C2, as the code has it.  When the lookup finds no record, [authorize]
    returns [null] at once: it logs the miss and never calls the password
    verifier.  The verifier runs, exactly once and on the stored hash, only
    when a record was found. *)
Theorem lookup_miss_returns_before_verifier :
  forall (isEmail : string -> bool) (bcrypt_compare : string -> string -> bool)
         (c : Credentials) (e p : string) (w : World),
    schema_safeParse isEmail c = inl (e, p) ->
    Prisma.reachable (store w) = true ->
    (Prisma.lookup (store w) e = None ->
     authorize isEmail bcrypt_compare c w
     = (Return None,
        add_trace w [ConsoleLog "[AUTH] authorize called with:" (LogCredentials c);
                     ConsoleLog "[AUTH] Looking for user:" (LogString e);
                     FindUnique e;
                     ConsoleLog "[AUTH] User not found" LogNothing])) /\
    (forall u, Prisma.lookup (store w) e = Some u ->
               exists evs,
                 snd (authorize isEmail bcrypt_compare c w) = add_trace w evs /\
                 verifier_calls evs = 1 /\
                 In (BcryptCompare p (Prisma.passwordHash u)) evs /\
                 (bcrypt_compare p (Prisma.passwordHash u) = false ->
                  fst (authorize isEmail bcrypt_compare c w) = Return None)).
Proof.
  intros isEmail cmp c e p w H Hr. split.
  - intros L. now rewrite (authorize_unknown isEmail cmp c w e p H Hr L).
  - intros u L.
    destruct (cmp p (Prisma.passwordHash u)) eqn:C.
    + rewrite (authorize_success isEmail cmp c w e p u H Hr L C).
      eexists; split; [reflexivity|]. simpl.
      split; [reflexivity|]. split; [|discriminate]. intuition.
    + rewrite (authorize_wrong_password isEmail cmp c w e p u H Hr L C).
      eexists; split; [reflexivity|]. simpl.
      split; [reflexivity|]. split; [|reflexivity]. intuition.
Qed.

Lemma lookup_miss_returns_before_verifier_witness :
  authorize email_regex sample_compare
            (credentials_of "ghost@example.com" "admin123") seeded
  = (Return None,
     add_trace seeded
       [ConsoleLog "[AUTH] authorize called with:"
                   (LogCredentials (credentials_of "ghost@example.com" "admin123"));
        ConsoleLog "[AUTH] Looking for user:" (LogString "ghost@example.com");
        FindUnique "ghost@example.com";
        ConsoleLog "[AUTH] User not found" LogNothing]).
Proof.
  apply (lookup_miss_returns_before_verifier
           email_regex sample_compare
           (credentials_of "ghost@example.com" "admin123")
           "ghost@example.com" "admin123" seeded eq_refl eq_refl).
  reflexivity.
Defined.

(** C2, as stated, fails: for an address without a record the trace of
    [authorize] holds no call of the verifier, while a wrong password for
    the seeded record costs one. *)
Lemma lookup_miss_skips_verifier :
  let ghost := authorize email_regex sample_compare
                         (credentials_of "ghost@example.com" "admin123") seeded in
  let wrong := authorize email_regex sample_compare
                         (credentials_of "admin@example.com" "letmein") seeded in
  Prisma.lookup (store seeded) "ghost@example.com" = None /\
  fst ghost = Return None /\ fst wrong = Return None /\
  verifier_calls (trace (snd ghost)) = 0 /\
  verifier_calls (trace (snd wrong)) = 1 /\
  ~ (exists p h, In (BcryptCompare p h) (trace (snd ghost))) /\
  trace (snd ghost) <> trace (snd wrong).
Proof.
  cbv zeta. repeat split; try reflexivity.
  - intros (p & h & H). simpl in H.
    repeat (destruct H as [H|H]; [discriminate|]). exact H.
  - discriminate.
Qed.

(** X10.  Whatever [signIn] is, a form that fails [loginSchema] makes
    [loginAction] throw the [ZodError]; nothing else happens. *)
Lemma validation_failure_is_thrown
      (isEmail : string -> bool) (signIn : SignIn) (prev : LoginState)
      (fd : FormData) (w : World) :
  (forall e p f, ~ submits isEmail fd e p f) ->
  exists issues,
    issues <> [] /\
    loginAction_with isEmail signIn prev fd w = (Throw (ZodError issues), w).
Proof.
  intros H. destruct (parse_cases isEmail fd w) as [(issues & Hi & Hp)|(e & p & f & S)].
  - exists issues. split; [exact Hi|]. now apply loginAction_with_invalid.
  - now destruct (H e p f).
Qed.

(** C3, on the code.  A too-short password, or a malformed address, makes
    [loginAction] throw: the [ZodError] of [loginSchema.parse] is not an
    [AuthError], so the handler throws it again instead of returning a
    [LoginState].  The world is left as it was. *)
Theorem loginAction_throws_on_invalid_input :
  forall (signIn : SignIn) (prev : LoginState) (w : World),
    loginAction_with email_regex signIn prev (form "admin@example.com" "abc" None) w
    = (Throw (ZodError [too_small "password" "Password must be at least 6 characters"]), w)
    /\
    loginAction_with email_regex signIn prev (form "not-an-email" "admin123" None) w
    = (Throw (ZodError [invalid_string "email" "Invalid email address"]), w).
Proof.
  intros signIn prev w. split; reflexivity.
Qed.

(** C4.  With the address of a stored record and a password its hash
    verifies, the login succeeds (the redirect to the target is thrown) and
    the session cookie holds a token whose claims are the [id], [email],
    [name] and [role] of that record; the session decoded from it shows the
    same four. *)
Theorem successful_login_token_claims :
  forall (isEmail : string -> bool) (bcrypt_compare : string -> string -> bool)
         (prev : LoginState) (fd : FormData) (e p f : string)
         (w : World) (u : Prisma.User),
    submits isEmail fd e p f ->
    secret w <> None ->
    Prisma.reachable (store w) = true ->
    Prisma.lookup (store w) e = Some u ->
    bcrypt_compare p (Prisma.passwordHash u) = true ->
    let r := loginAction isEmail bcrypt_compare prev fd w in
    let t := {| token_sub := Some (Prisma.id u);
                token_name := Prisma.name u;
                token_email := Some (Prisma.email u);
                token_role := Some (Prisma.role u);
                token_id := Some (Prisma.id u) |} in
    Prisma.email u = e /\
    fst r = Throw (NEXT_REDIRECT f) /\
    cookie (snd r) = Some t /\
    session_of_token t
    = {| session_user :=
           Some {| session_name := Prisma.name u;
                   session_email := Some (Prisma.email u);
                   session_role := Some (Prisma.role u);
                   session_id := Some (Prisma.id u) |} |}.
Proof.
  intros isEmail cmp prev fd e p f w u S Hsec Hr L C r t.
  pose proof S as (_ & He & _ & Hp & _).
  subst r t. unfold loginAction.
  rewrite (loginAction_with_valid _ _ _ _ _ _ _ w S).
  rewrite (signIn_success isEmail cmp e p f w u He Hp Hsec Hr L C).
  simpl. repeat split. exact (lookup_email _ _ _ L).
Qed.

Lemma successful_login_token_claims_witness :
  cookie (snd (loginAction email_regex sample_compare initialState
                           (form "admin@example.com" "admin123" None) seeded))
  = Some {| token_sub := Some "cuid-admin";
            token_name := Some "Admin";
            token_email := Some "admin@example.com";
            token_role := Some "admin";
            token_id := Some "cuid-admin" |}.
Proof.
  assert (S : submits email_regex (form "admin@example.com" "admin123" None)
                      "admin@example.com" "admin123" "/dashboard/default")
    by (unfold submits; simpl; repeat split; lia).
  assert (Hsec : secret seeded <> None) by discriminate.
  exact (proj1 (proj2 (proj2
           (successful_login_token_claims
              email_regex sample_compare initialState _ _ _ _ seeded seed_admin
              S Hsec eq_refl eq_refl eq_refl)))).
Defined.

(** C7.  Once the form is valid, what [signIn] throws decides the result:
    an [AuthError] of any type but [CredentialsSignin] gives the one fixed
    message, whatever the error carried; anything that is not an
    [AuthError], the redirect of a successful login among them, is thrown
    again unchanged. *)
Theorem loginAction_error_mapping :
  forall (isEmail : string -> bool) (signIn : SignIn) (prev : LoginState)
         (fd : FormData) (e p f : string) (w w' : World) (x : Exn),
    submits isEmail fd e p f ->
    signIn "credentials" {| opt_email := e; opt_password := p; redirectTo := Some f |} w
    = (Throw x, w') ->
    (forall type, x = AuthError type -> type <> "CredentialsSignin" ->
                  loginAction_with isEmail signIn prev fd w
                  = (Return {| error := Some "Something went wrong. Please try again.";
                               success := None |}, w')) /\
    (is_AuthError x = false ->
     loginAction_with isEmail signIn prev fd w = (Throw x, w')) /\
    (forall url, x = NEXT_REDIRECT url ->
                 loginAction_with isEmail signIn prev fd w = (Throw (NEXT_REDIRECT url), w')).
Proof.
  intros isEmail signIn prev fd e p f w w' x S H.
  rewrite (loginAction_with_valid _ _ _ _ _ _ _ w S), H.
  repeat split.
  - intros ty -> Hty. apply String.eqb_neq in Hty. now rewrite Hty.
  - now destruct x.
  - now intros url ->.
Qed.

Lemma loginAction_error_mapping_witness :
  let down := {| store := {| Prisma.reachable := false; Prisma.users := [seed_admin] |};
                 secret := Some "AUTH_SECRET"; cookie := None; trace := [] |} in
  fst (loginAction email_regex sample_compare initialState
                   (form "admin@example.com" "admin123" None) down)
  = Return {| error := Some "Something went wrong. Please try again."; success := None |}.
Proof.
  intros down.
  assert (S : submits email_regex (form "admin@example.com" "admin123" None)
                      "admin@example.com" "admin123" "/dashboard/default")
    by (unfold submits; simpl; repeat split; lia).
  assert (Hne : "CallbackRouteError" <> "CredentialsSignin") by discriminate.
  unfold loginAction.
  rewrite (proj1 (loginAction_error_mapping
                    email_regex (signIn email_regex sample_compare) initialState
                    _ _ _ _ down _ (AuthError "CallbackRouteError") S eq_refl)
                 "CallbackRouteError" eq_refl Hne).
  reflexivity.
Defined.

(** C8, as the code has it.  On a successful login the redirect goes to the
    submitted [from] when that is a non-empty string, and to
    [/dashboard/default] when the form has no [from] field or an empty
    one. *)
Theorem redirect_target_from_or_default :
  forall (isEmail : string -> bool) (bcrypt_compare : string -> string -> bool)
         (prev : LoginState) (fd : FormData) (e p f : string)
         (w : World) (u : Prisma.User),
    submits isEmail fd e p f ->
    secret w <> None ->
    Prisma.reachable (store w) = true ->
    Prisma.lookup (store w) e = Some u ->
    bcrypt_compare p (Prisma.passwordHash u) = true ->
    fst (loginAction isEmail bcrypt_compare prev fd w) = Throw (NEXT_REDIRECT f) /\
    (forall s, FormData_get fd "from" = VString s -> s <> "" -> f = s) /\
    (FormData_get fd "from" = VNull -> f = "/dashboard/default") /\
    (FormData_get fd "from" = VString "" -> f = "/dashboard/default").
Proof.
  intros isEmail cmp prev fd e p f w u S Hsec Hr L C.
  pose proof S as (_ & He & _ & Hp & Hf).
  unfold loginAction.
  rewrite (loginAction_with_valid _ _ _ _ _ _ _ w S).
  rewrite (signIn_success isEmail cmp e p f w u He Hp Hsec Hr L C).
  simpl. split; [reflexivity|].
  unfold or_else in Hf. repeat split.
  - intros s Hs Hne. rewrite Hs in Hf; simpl in Hf.
    apply String.eqb_neq in Hne. rewrite Hne in Hf; simpl in Hf. congruence.
  - intros Hs. rewrite Hs in Hf; simpl in Hf. congruence.
  - intros Hs. rewrite Hs in Hf; simpl in Hf. congruence.
Qed.

Lemma redirect_target_from_or_default_witness :
  fst (loginAction email_regex sample_compare initialState
                   (form "admin@example.com" "admin123" (Some "/dashboard/crm")) seeded)
  = Throw (NEXT_REDIRECT "/dashboard/crm").
Proof.
  assert (S : submits email_regex
                      (form "admin@example.com" "admin123" (Some "/dashboard/crm"))
                      "admin@example.com" "admin123" "/dashboard/crm")
    by (unfold submits; simpl; repeat split; lia).
  assert (Hsec : secret seeded <> None) by discriminate.
  exact (proj1 (redirect_target_from_or_default
                  email_regex sample_compare initialState _ _ _ _ seeded seed_admin
                  S Hsec eq_refl eq_refl eq_refl)).
Defined.

(** C8, as stated, fails: a form that submits the empty string as [from]
    logs in and is sent to the default path, not to the submitted value. *)
Lemma empty_from_goes_to_default :
  let fd := form "admin@example.com" "admin123" (Some "") in
  let r := loginAction email_regex sample_compare initialState fd seeded in
  FormData_get fd "from" = VString "" /\
  fst r = Throw (NEXT_REDIRECT "/dashboard/default") /\
  fst r <> Throw (NEXT_REDIRECT "").
Proof.
  cbv zeta. repeat split; try reflexivity. discriminate.
Qed.

(** C9.  The store and the secret are never written.  A login that does
    not end in the redirect of a success (it returned an error state or
    threw a validation error) leaves the session cookie as it was; the
    cookie is set only on the path where the form was valid, the store
    answered with a record and the verifier accepted the password, and then
    it holds the token of that record. *)
Theorem failure_establishes_no_session :
  forall (isEmail : string -> bool) (bcrypt_compare : string -> string -> bool)
         (prev : LoginState) (fd : FormData) (w : World),
    let r := loginAction isEmail bcrypt_compare prev fd w in
    store (snd r) = store w /\
    secret (snd r) = secret w /\
    (is_redirect (fst r) = false -> cookie (snd r) = cookie w) /\
    (is_redirect (fst r) = true ->
     exists e p f u,
       submits isEmail fd e p f /\
       Prisma.reachable (store w) = true /\
       Prisma.lookup (store w) e = Some u /\
       bcrypt_compare p (Prisma.passwordHash u) = true /\
       fst r = Throw (NEXT_REDIRECT f) /\
       cookie (snd r) = Some (token_for u)).
Proof.
  intros isEmail cmp prev fd w r. subst r. unfold loginAction.
  destruct (parse_cases isEmail fd w) as [(issues & _ & Hp)|(e & p & f & S)].
  - rewrite (loginAction_with_invalid _ _ _ _ _ w Hp). simpl.
    repeat split; auto; discriminate.
  - pose proof S as (_ & He & _ & Hl & _).
    rewrite (loginAction_with_valid _ _ _ _ _ _ _ w S).
    destruct (secret w) as [k|] eqn:Hsec.
    + assert (Hs : secret w <> None) by congruence.
      destruct (Prisma.reachable (store w)) eqn:Hr.
      * destruct (Prisma.lookup (store w) e) as [u|] eqn:L.
        -- destruct (cmp p (Prisma.passwordHash u)) eqn:C.
           ++ rewrite (signIn_success isEmail cmp e p f w u He Hl Hs Hr L C). simpl.
              repeat split; auto; try discriminate.
              intros _. exists e, p, f, u. repeat split; auto; apply S.
           ++ rewrite (signIn_wrong_password isEmail cmp e p (Some f) w u He Hl Hs Hr L C).
              simpl. repeat split; auto; discriminate.
        -- rewrite (signIn_unknown isEmail cmp e p (Some f) w He Hl Hs Hr L). simpl.
           repeat split; auto; discriminate.
      * rewrite (signIn_store_down isEmail cmp e p (Some f) w He Hl Hs Hr). simpl.
        repeat split; auto; discriminate.
    + rewrite (signIn_no_secret isEmail cmp _ w Hsec). simpl.
      repeat split; auto; discriminate.
Qed.

(** ** The Route Guard *)

Lemma decode_encode_char (c : ascii) (t : string) :
  Url.decode (Url.encode_char c ++ t) = String c (Url.decode t).
Proof.
  destruct c as [[] [] [] [] [] [] [] []]; reflexivity.
Qed.

(** What the guard stores under [from] is read back unchanged. *)
Lemma decode_encode (s : string) : Url.decode (Url.encode s) = s.
Proof.
  induction s as [|c s IH]; [reflexivity|].
  simpl Url.encode. now rewrite decode_encode_char, IH.
Qed.

Lemma matches_dashboard (p : string) :
  matches "/dashboard/:path*" p = (p =? "/dashboard")%string || startsWith p "/dashboard/".
Proof. reflexivity. Qed.

Lemma matcher_selects (req : NextRequest) :
  existsb (fun pattern => matches pattern (pathname (nextUrl req))) matcher
  = (pathname (nextUrl req) =? "/dashboard")%string
    || startsWith (pathname (nextUrl req)) "/dashboard/".
Proof.
  unfold matcher. simpl existsb. rewrite matches_dashboard. apply orb_false_r.
Qed.

Lemma matcher_inside (req : NextRequest) :
  existsb (fun pattern => matches pattern (pathname (nextUrl req))) matcher = true ->
  startsWith (pathname (nextUrl req)) "/dashboard" = true.
Proof.
  rewrite matcher_selects. intros H. apply orb_true_iff in H as [H|H].
  - apply String.eqb_eq in H. rewrite H. reflexivity.
  - exact (startsWith_trans _ "/dashboard" "/" H).
Qed.

Lemma handler_redirect (req : NextRequest) :
  startsWith (pathname (nextUrl req)) "/dashboard" = true ->
  auth req = None ->
  handler req
  = redirect (origin (url req) ++ "/auth/v1/login?from=" ++ Url.encode (from_value req)).
Proof.
  intros Hp Ha. unfold handler, authenticated. rewrite Hp, Ha. reflexivity.
Qed.

Lemma handler_next (req : NextRequest) :
  startsWith (pathname (nextUrl req)) "/dashboard" = false \/ auth req <> None ->
  handler req = next.
Proof.
  intros [H|H]; unfold handler, authenticated.
  - now rewrite H.
  - destruct (auth req); [|congruence]. now rewrite andb_false_r.
Qed.

(** C5.  An unauthenticated request that the matcher selects is redirected
    to the login page of its own origin, with the requested path and, when
    there is one, a question mark and the query, form-encoded under [from];
    decoding the parameter gives that path and query back. *)
Theorem guard_redirect_carries_from :
  forall req : NextRequest,
    existsb (fun pattern => matches pattern (pathname (nextUrl req))) matcher = true ->
    auth req = None ->
    let search := Url.toString (searchParams (nextUrl req)) in
    let requested :=
        pathname (nextUrl req) ++ (if negb (search =? "")%string then "?" ++ search else "") in
    proxy req
    = redirect (origin (url req) ++ "/auth/v1/login?from=" ++ Url.encode requested) /\
    Url.decode (Url.encode requested) = requested.
Proof.
  intros req Hm Ha search requested. split.
  - unfold proxy. rewrite Hm.
    exact (handler_redirect req (matcher_inside req Hm) Ha).
  - apply decode_encode.
Qed.

Lemma guard_redirect_carries_from_witness :
  proxy {| url := {| origin := "https://admin.example.com";
                     pathname := "/dashboard/reports";
                     searchParams := [("x", "1")] |};
           auth := None |}
  = redirect
      "https://admin.example.com/auth/v1/login?from=%2Fdashboard%2Freports%3Fx%3D1".
Proof.
  exact (proj1 (guard_redirect_carries_from
                  {| url := {| origin := "https://admin.example.com";
                               pathname := "/dashboard/reports";
                               searchParams := [("x", "1")] |};
                     auth := None |}
                  eq_refl eq_refl)).
Defined.

(** C6.  A request for the login page, or for any path that is neither
    [/dashboard] nor below it, passes the guard untouched, with or without
    a session; and the handler by itself lets every request pass whose path
    does not start with [/dashboard]. *)
Theorem guard_never_intercepts_login :
  forall req : NextRequest,
    pathname (nextUrl req) = pages_signIn \/
    ((pathname (nextUrl req) =? "/dashboard")%string = false /\
     startsWith (pathname (nextUrl req)) "/dashboard/" = false) ->
    proxy req = next /\
    (startsWith (pathname (nextUrl req)) "/dashboard" = false -> handler req = next).
Proof.
  intros req H. split.
  - unfold proxy. rewrite matcher_selects.
    destruct H as [H|[H1 H2]].
    + rewrite H. reflexivity.
    + now rewrite H1, H2.
  - intros Hs. apply handler_next. now left.
Qed.

Lemma guard_never_intercepts_login_witness :
  proxy {| url := {| origin := "https://admin.example.com";
                     pathname := "/auth/v1/login";
                     searchParams := [("from", "/dashboard/default")] |};
           auth := None |}
  = next.
Proof.
  exact (proj1 (guard_never_intercepts_login
                  {| url := {| origin := "https://admin.example.com";
                               pathname := "/auth/v1/login";
                               searchParams := [("from", "/dashboard/default")] |};
                     auth := None |}
                  (or_introl eq_refl))).
Defined.

(** C10.  Whenever the guard redirects, the value it put under [from] is
    the path of the request, followed by its query if any; that path starts
    with [/dashboard], so the value is a path of this site and not an
    absolute address. *)
Theorem guard_from_is_dashboard_path :
  forall (req : NextRequest) (location : string),
    proxy req = redirect location ->
    let search := Url.toString (searchParams (nextUrl req)) in
    let from := pathname (nextUrl req)
                ++ (if negb (search =? "")%string then "?" ++ search else "") in
    location = origin (url req) ++ "/auth/v1/login?from=" ++ Url.encode from /\
    startsWith (pathname (nextUrl req)) "/dashboard" = true /\
    exists rest, from = "/dashboard" ++ rest.
Proof.
  intros req location H search from.
  unfold proxy in H.
  destruct (existsb _ matcher) eqn:Hm; [|discriminate].
  pose proof (matcher_inside req Hm) as Hp.
  destruct (auth req) as [s|] eqn:Ha.
  - rewrite handler_next in H; [discriminate|]. right. congruence.
  - rewrite (handler_redirect req Hp Ha) in H. injection H as <-.
    split; [reflexivity|]. split; [exact Hp|].
    destruct (startsWith_split _ _ Hp) as [rest Hrest].
    exists (rest ++ (if negb (search =? "")%string then "?" ++ search else "")).
    subst from. rewrite Hrest at 1. apply append_assoc.
Qed.

Lemma guard_from_is_dashboard_path_witness :
  exists rest, "/dashboard/reports?x=1" = "/dashboard" ++ rest.
Proof.
  exact (proj2 (proj2
           (guard_from_is_dashboard_path
              {| url := {| origin := "https://admin.example.com";
                           pathname := "/dashboard/reports";
                           searchParams := [("x", "1")] |};
                 auth := None |}
              "https://admin.example.com/auth/v1/login?from=%2Fdashboard%2Freports%3Fx%3D1"
              eq_refl))).
Defined.

(** ** More on [authorize] *)

Lemma authorize_run (isEmail : string -> bool) (cmp : string -> string -> bool)
      (c : Credentials) (w : World) :
  exists o evs,
    authorize isEmail cmp c w = (o, add_trace w evs) /\
    AuthorizeRun isEmail cmp c w o evs.
Proof.
  destruct (schema_safeParse isEmail c) as [[e p]|issues] eqn:H.
  - destruct (Prisma.reachable (store w)) eqn:Hr.
    + destruct (Prisma.lookup (store w) e) as [u|] eqn:L.
      * destruct (cmp p (Prisma.passwordHash u)) eqn:C.
        -- do 2 eexists. split;
             [exact (authorize_success isEmail cmp c w e p u H Hr L C)|].
           now apply run_success.
        -- do 2 eexists. split;
             [exact (authorize_wrong_password isEmail cmp c w e p u H Hr L C)|].
           now apply run_wrong_password.
      * do 2 eexists. split; [exact (authorize_unknown isEmail cmp c w e p H Hr L)|].
        now apply run_unknown with (p := p).
    + do 2 eexists. split; [exact (authorize_store_down isEmail cmp c w e p H Hr)|].
      now apply run_store_down with (p := p).
  - do 2 eexists. split; [exact (authorize_invalid isEmail cmp c w issues H)|].
    now apply run_invalid.
Qed.

Lemma safeParse_fields (isEmail : string -> bool) (c : Credentials) (e p : string) :
  cred_email c = VString e -> isEmail e = true ->
  cred_password c = VString p -> 6 <= String.length p ->
  schema_safeParse isEmail c = inl (e, p).
Proof.
  intros He Hv Hp Hl. destruct c as [ce cp]; simpl in He, Hp; subst ce cp.
  exact (safeParse_valid isEmail e p Hv Hl).
Qed.

(** X1.  [authorize] only reads: whatever the credentials and the world,
    the store, the secret and the session cookie are as before, the trace
    is the old one with new entries behind it, and the first new entry is
    the log line that prints the credentials as received, password
    included. *)
Theorem authorize_reads_only_and_logs_credentials :
  forall (isEmail : string -> bool) (bcrypt_compare : string -> string -> bool)
         (c : Credentials) (w : World),
    let w' := snd (authorize isEmail bcrypt_compare c w) in
    store w' = store w /\ secret w' = secret w /\ cookie w' = cookie w /\
    exists evs,
      trace w'
      = (trace w ++
         ConsoleLog "[AUTH] authorize called with:" (LogCredentials c) :: evs)%list.
Proof.
  intros isEmail cmp c w w'. subst w'.
  destruct (authorize_run isEmail cmp c w) as (o & evs & -> & R). simpl.
  repeat split. destruct R; eexists; reflexivity.
Qed.

(** X2.  [authorize] returns a user exactly when the credentials are a
    well-formed address and a password of six or more characters, the store
    answers with a record for that address, and the verifier accepts the
    password against the stored hash; the user returned is then the [id],
    [email], [name] and [role] of that record. *)
Theorem authorize_returns_user_iff :
  forall (isEmail : string -> bool) (bcrypt_compare : string -> string -> bool)
         (c : Credentials) (w : World) (a : AuthJs.User),
    fst (authorize isEmail bcrypt_compare c w) = Return (Some a)
    <->
    exists e p u,
      cred_email c = VString e /\ isEmail e = true /\
      cred_password c = VString p /\ 6 <= String.length p /\
      Prisma.reachable (store w) = true /\
      Prisma.lookup (store w) e = Some u /\
      bcrypt_compare p (Prisma.passwordHash u) = true /\
      a = {| user_id := Prisma.id u; user_email := Prisma.email u;
             user_name := Prisma.name u; user_role := Prisma.role u |}.
Proof.
  intros isEmail cmp c w a. split.
  - destruct (authorize_run isEmail cmp c w) as (o & evs & -> & R). simpl.
    intros Ho. destruct R as [i H|e p H Hr|e p H Hr L|e p u H Hr L C|e p u H Hr L C];
      try discriminate.
    injection Ho as <-. exists e, p, u.
    destruct (safeParse_inv isEmail c e p H) as (He & Hv & Hp & Hl).
    repeat split; auto.
  - intros (e & p & u & He & Hv & Hp & Hl & Hr & L & C & ->).
    now rewrite (authorize_success isEmail cmp c w e p u
                   (safeParse_fields isEmail c e p He Hv Hp Hl) Hr L C).
Qed.

(** X3.  Credentials that fail the schema never reach the collaborators:
    [authorize] returns [null] with no lookup in the store and no call of
    the verifier, also when the store is unreachable. *)
Theorem authorize_invalid_stops_before_store :
  forall (isEmail : string -> bool) (bcrypt_compare : string -> string -> bool)
         (c : Credentials) (w : World) (issues : list ZodIssue),
    schema_safeParse isEmail c = inr issues ->
    fst (authorize isEmail bcrypt_compare c w) = Return None /\
    exists evs,
      snd (authorize isEmail bcrypt_compare c w) = add_trace w evs /\
      verifier_calls evs = 0 /\
      (forall e, ~ In (FindUnique e) evs) /\
      In (ConsoleLog "[AUTH] Validation failed:" (LogIssues issues)) evs.
Proof.
  intros isEmail cmp c w issues H.
  rewrite (authorize_invalid isEmail cmp c w issues H). simpl.
  split; [reflexivity|]. eexists. split; [reflexivity|]. simpl.
  repeat split; auto.
  intros e [F|[F|[]]]; discriminate.
Qed.

Lemma authorize_invalid_stops_before_store_witness :
  fst (authorize email_regex sample_compare
                 {| cred_email := VString "admin@example.com"; cred_password := VNull |}
                 {| store := {| Prisma.reachable := false; Prisma.users := [] |};
                    secret := None; cookie := None; trace := [] |})
  = Return None.
Proof.
  exact (proj1 (authorize_invalid_stops_before_store
                  email_regex sample_compare
                  {| cred_email := VString "admin@example.com"; cred_password := VNull |}
                  {| store := {| Prisma.reachable := false; Prisma.users := [] |};
                     secret := None; cookie := None; trace := [] |}
                  [invalid_type "password"] eq_refl)).
Defined.

(** X4.  [authorize] throws exactly when the credentials pass the schema
    and the store is unreachable; what it throws is the error of the
    store. *)
Theorem authorize_throws_iff :
  forall (isEmail : string -> bool) (bcrypt_compare : string -> string -> bool)
         (c : Credentials) (w : World) (x : Exn),
    fst (authorize isEmail bcrypt_compare c w) = Throw x
    <->
    x = PrismaError /\ Prisma.reachable (store w) = false /\
    exists e p, schema_safeParse isEmail c = inl (e, p).
Proof.
  intros isEmail cmp c w x. split.
  - destruct (authorize_run isEmail cmp c w) as (o & evs & -> & R). simpl.
    intros Ho. destruct R as [i H|e p H Hr|e p H Hr L|e p u H Hr L C|e p u H Hr L C];
      try discriminate.
    injection Ho as <-. repeat split; auto. now exists e, p.
  - intros (-> & Hr & e & p & H).
    now rewrite (authorize_store_down isEmail cmp c w e p H Hr).
Qed.

(** X5.  The verifier is called at most once per call of [authorize], and
    only with the submitted password against the hash stored for the record
    of the submitted address. *)
Theorem authorize_verifier_discipline :
  forall (isEmail : string -> bool) (bcrypt_compare : string -> string -> bool)
         (c : Credentials) (w : World),
  exists evs,
    snd (authorize isEmail bcrypt_compare c w) = add_trace w evs /\
    verifier_calls evs <= 1 /\
    forall p h,
      In (BcryptCompare p h) evs ->
      exists e u,
        cred_email c = VString e /\ cred_password c = VString p /\
        Prisma.lookup (store w) e = Some u /\ Prisma.email u = e /\
        h = Prisma.passwordHash u.
Proof.
  intros isEmail cmp c w.
  destruct (authorize_run isEmail cmp c w) as (o & evs & -> & R). simpl.
  exists evs. split; [reflexivity|].
  destruct R as [i H|e p H Hr|e p H Hr L|e p u H Hr L C|e p u H Hr L C]; simpl;
    (split; [lia|]); intros q h Hin; simpl in Hin;
    repeat (destruct Hin as [Hin|Hin]; try discriminate); try contradiction;
    injection Hin as <- <-;
    destruct (safeParse_inv isEmail c e p H) as (He & _ & Hp & _);
    exists e, u; repeat split; auto; exact (lookup_email _ _ _ L).
Qed.

(** ** The callbacks *)

(** X6.  The two callbacks in sequence: a session built from the token of
    a sign-in shows the role and the id of the signed-in user and keeps its
    own name and email; this stays so when the token passes through [jwt]
    again on later requests, where no user is given.  A session without a
    user is returned as it is. *)
Theorem session_shows_role_and_id_of_sign_in :
  forall (token : JWT) (u : AuthJs.User) (s : Session),
    let signed := jwt token (Some u) in
    jwt signed None = signed /\
    (forall su, session_user s = Some su ->
                session s (jwt signed None)
                = {| session_user :=
                       Some {| session_name := session_name su;
                               session_email := session_email su;
                               session_role := Some (user_role u);
                               session_id := Some (user_id u) |} |}) /\
    (session_user s = None -> session s (jwt signed None) = s) /\
    token_sub signed = token_sub token /\
    token_name signed = token_name token /\
    token_email signed = token_email token.
Proof.
  intros token u s signed. subst signed. simpl.
  repeat split.
  - intros su H. unfold session. now rewrite H.
  - intros H. unfold session. now rewrite H.
Qed.

(** ** More on [loginAction] *)

(** X7.  [loginSchema] accepts a form exactly when [email] is a string of
    address shape, [password] is a string of six or more characters and
    [from] is not a file; the data it returns are these two strings and the
    non-empty [from] of the form or else [/dashboard/default].  A parse
    never changes the world. *)
Theorem loginSchema_accepts_iff :
  forall (isEmail : string -> bool) (fd : FormData) (w : World) (d : LoginData) (w' : World),
    loginSchema_parse isEmail
      (FormData_get fd "email") (FormData_get fd "password")
      (or_else (FormData_get fd "from") (VString "/dashboard/default")) w
    = (Return d, w')
    <->
    w' = w /\
    FormData_get fd "email" = VString (data_email d) /\
    isEmail (data_email d) = true /\
    FormData_get fd "password" = VString (data_password d) /\
    6 <= String.length (data_password d) /\
    (forall name, FormData_get fd "from" <> VFile name) /\
    data_from d
    = Some (match FormData_get fd "from" with
            | VString s => if (s =? "")%string then "/dashboard/default" else s
            | _ => "/dashboard/default"
            end).
Proof.
  intros isEmail fd w d w'. split.
  - intros H.
    destruct (parse_cases isEmail fd w) as [(issues & _ & Hp)|(e & p & f & S)].
    + rewrite Hp in H. discriminate.
    + rewrite (parse_valid isEmail fd e p f w S) in H.
      injection H as <- <-. simpl.
      destruct S as (He & Hv & Hp & Hl & Hf).
      repeat split; auto.
      * intros name Hn. rewrite Hn in Hf. discriminate.
      * unfold or_else in Hf.
        destruct (FormData_get fd "from") as [| |s|n]; simpl in Hf;
          try (injection Hf as <-; reflexivity); try discriminate.
        destruct (s =? "")%string; simpl in Hf; injection Hf as <-; reflexivity.
  - intros (-> & He & Hv & Hp & Hl & Hn & Hf).
    destruct d as [de dp df]; simpl in *. subst df.
    apply parse_valid. unfold submits. repeat split; auto.
    unfold or_else.
    destruct (FormData_get fd "from") as [| |s|n]; simpl; try reflexivity.
    + now destruct (s =? "")%string.
    + now destruct (Hn n).
Qed.

(** X8.  Whatever [signIn] does, [loginAction] never lets an [AuthError]
    out: it either returns one of the two error states or the success
    state, or throws something that is not an [AuthError]; and it returns
    the success state only when the form was valid and [signIn] returned
    normally. *)
Theorem loginAction_outcomes :
  forall (isEmail : string -> bool) (signIn : SignIn) (prev : LoginState)
         (fd : FormData) (w : World),
    let r := loginAction_with isEmail signIn prev fd w in
    (forall x, fst r = Throw x -> is_AuthError x = false) /\
    (forall s, fst r = Return s ->
               s = {| error := Some "Invalid email or password"; success := None |} \/
               s = {| error := Some "Something went wrong. Please try again.";
                      success := None |} \/
               (s = {| error := None; success := Some true |} /\
                exists e p f w',
                  submits isEmail fd e p f /\
                  signIn "credentials"
                         {| opt_email := e; opt_password := p; redirectTo := Some f |} w
                  = (Return tt, w'))).
Proof.
  intros isEmail signIn prev fd w r. subst r.
  destruct (parse_cases isEmail fd w) as [(issues & _ & Hp)|(e & p & f & S)].
  - rewrite (loginAction_with_invalid isEmail signIn prev fd issues w Hp). simpl.
    split; [now intros x [= <-]|discriminate].
  - rewrite (loginAction_with_valid isEmail signIn prev fd e p f w S).
    destruct (signIn "credentials" _ w) as [[[]|x] w'] eqn:Hs; simpl.
    + split; [discriminate|]. intros s [= <-]. right; right.
      split; [reflexivity|]. now exists e, p, f, w'.
    + destruct x as [i|ty|u|]; simpl;
        try (split; [now intros x [= <-]|discriminate]).
      destruct (ty =? "CredentialsSignin")%string; simpl;
        (split; [discriminate|]); intros s [= <-]; auto.
Qed.

Lemma validation_failure_is_thrown_witness :
  exists issues,
    issues <> [] /\
    loginAction_with email_regex (signIn email_regex sample_compare) initialState
                     [("email", EntryString "admin@example.com");
                      ("password", EntryString "admin123");
                      ("from", EntryFile "report.pdf")] seeded
    = (Throw (ZodError issues), seeded).
Proof.
  apply (validation_failure_is_thrown
           email_regex (signIn email_regex sample_compare) initialState
           [("email", EntryString "admin@example.com");
            ("password", EntryString "admin123");
            ("from", EntryFile "report.pdf")] seeded).
  intros e p f (_ & _ & _ & _ & H). discriminate.
Defined.

(** ** Queries: what is serialised is parsed back *)

Lemma all_chars_app (p : ascii -> bool) (a b : string) :
  all_chars p (a ++ b) = all_chars p a && all_chars p b.
Proof.
  induction a as [|c a IH]; simpl; [reflexivity|].
  now rewrite IH, andb_assoc.
Qed.

Lemma all_chars_impl (p q : ascii -> bool) (s : string) :
  (forall c, p c = true -> q c = true) ->
  all_chars p s = true -> all_chars q s = true.
Proof.
  intros Hpq. induction s as [|c s IH]; simpl; [reflexivity|].
  intros H. apply andb_true_iff in H as [Hc Hs].
  now rewrite (Hpq c Hc), (IH Hs).
Qed.

Lemma encode_char_safe (c : ascii) : all_chars url_safe (Url.encode_char c) = true.
Proof.
  destruct c as [[] [] [] [] [] [] [] []]; reflexivity.
Qed.

Lemma encode_safe (s : string) : all_chars url_safe (Url.encode s) = true.
Proof.
  induction s as [|c s IH]; [reflexivity|].
  simpl Url.encode. now rewrite all_chars_app, encode_char_safe, IH.
Qed.

Lemma url_safe_not_separator (c : ascii) :
  url_safe c = true ->
  negb (Ascii.eqb c "&") && negb (Ascii.eqb c "=") && negb (Ascii.eqb c "#")
  && negb (Ascii.eqb c "?") && negb (Ascii.eqb c "/") && negb (Ascii.eqb c ":") = true.
Proof.
  destruct c as [[] [] [] [] [] [] [] []]; intros H; try reflexivity; discriminate H.
Qed.

Lemma safe_differs (sep : ascii) (s : string) :
  sep = "&"%char \/ sep = "="%char ->
  all_chars url_safe s = true -> all_chars (differs sep) s = true.
Proof.
  intros Hsep. apply all_chars_impl. intros c Hc.
  pose proof (url_safe_not_separator c Hc) as H.
  repeat (apply andb_true_iff in H as [H ?]).
  now destruct Hsep as [-> | ->].
Qed.

Lemma split_first_app (sep : ascii) (a b : string) :
  all_chars (differs sep) a = true ->
  split_first sep (a ++ String sep b) = Some (a, b).
Proof.
  induction a as [|c a IH]; simpl.
  - intros _. now rewrite Ascii.eqb_refl.
  - intros H. apply andb_true_iff in H as [Hc Ha].
    unfold differs in Hc. apply negb_true_iff in Hc. rewrite Hc.
    now rewrite (IH Ha).
Qed.

Lemma split_all_nonempty (sep : ascii) (s : string) : split_all sep s <> [].
Proof.
  induction s as [|c s IH]; simpl; [discriminate|].
  destruct (split_all sep s); [congruence|].
  destruct (Ascii.eqb c sep); discriminate.
Qed.

Lemma split_all_single (sep : ascii) (a : string) :
  all_chars (differs sep) a = true -> split_all sep a = [a].
Proof.
  induction a as [|c a IH]; simpl; [reflexivity|].
  intros H. apply andb_true_iff in H as [Hc Ha].
  unfold differs in Hc. apply negb_true_iff in Hc.
  now rewrite (IH Ha), Hc.
Qed.

Lemma split_all_app (sep : ascii) (a b : string) :
  all_chars (differs sep) a = true ->
  split_all sep (a ++ String sep b) = a :: split_all sep b.
Proof.
  induction a as [|c a IH]; simpl.
  - intros _. rewrite Ascii.eqb_refl.
    destruct (split_all sep b) eqn:E; [now destruct (split_all_nonempty sep b)|reflexivity].
  - intros H. apply andb_true_iff in H as [Hc Ha].
    unfold differs in Hc. apply negb_true_iff in Hc.
    now rewrite (IH Ha), Hc.
Qed.

Lemma append_char_not_empty (a b : string) (c : ascii) :
  ((a ++ String c b) =? "")%string = false.
Proof. now destruct a. Qed.

(** The sequence [toString] writes for one pair. *)
Lemma pair_sequence (k v : string) :
  let s := Url.encode k ++ String "=" (Url.encode v) in
  all_chars (differs "&") s = true /\ parse_pair s = (k, v) /\ (s =? "")%string = false.
Proof.
  intros s. subst s. repeat split.
  - rewrite all_chars_app. simpl.
    rewrite (safe_differs "&" _ (or_introl eq_refl) (encode_safe k)).
    now rewrite (safe_differs "&" _ (or_introl eq_refl) (encode_safe v)).
  - unfold parse_pair.
    rewrite (split_first_app "=" _ _ (safe_differs "=" _ (or_intror eq_refl) (encode_safe k))).
    now rewrite !decode_encode.
  - apply append_char_not_empty.
Qed.

Lemma toString_cons (k v : string) (rest : URLSearchParams) :
  Url.toString ((k, v) :: rest)
  = match rest with
    | [] => Url.encode k ++ String "=" (Url.encode v)
    | _ => (Url.encode k ++ String "=" (Url.encode v)) ++ String "&" (Url.toString rest)
    end.
Proof.
  destruct rest as [|[k' v'] rest]; [reflexivity|].
  cbn [Url.toString]. rewrite append_assoc. cbn [append]. reflexivity.
Qed.

Lemma parse_toString (p : URLSearchParams) : parse_query (Url.toString p) = p.
Proof.
  induction p as [|[k v] rest IH]; [reflexivity|].
  rewrite toString_cons.
  destruct (pair_sequence k v) as (Hs & Hp & Hn).
  destruct rest as [|kv rest'].
  - unfold parse_query. rewrite (split_all_single "&" _ Hs). cbn [filter].
    rewrite Hn. cbn [negb map]. now rewrite Hp.
  - unfold parse_query. rewrite (split_all_app "&" _ _ Hs). cbn [filter].
    rewrite Hn. cbn [negb map]. rewrite Hp. f_equal. exact IH.
Qed.

(** X9.  Parsing the query that [toString] wrote gives back the same list
    of pairs, names and values of any content included; and no character of
    the written query is other than a letter, a digit, one of the marks
    [* - . _ + %], or the two separators that [toString] itself puts
    between the pairs. *)
Theorem parse_query_toString :
  forall p : URLSearchParams,
    parse_query (Url.toString p) = p /\
    all_chars query_char (Url.toString p) = true.
Proof.
  intros p. split; [apply parse_toString|].
  assert (Hk : forall s, all_chars query_char (Url.encode s) = true).
  { intros s. apply (all_chars_impl url_safe); [|apply encode_safe].
    intros c Hc. unfold query_char. now rewrite Hc. }
  induction p as [|[k v] rest IH]; [reflexivity|].
  rewrite toString_cons. destruct rest as [|kv rest'].
  - rewrite all_chars_app. simpl. now rewrite !Hk.
  - rewrite !all_chars_app. cbn [all_chars]. rewrite !Hk, IH. reflexivity.
Qed.

Lemma get_filter_other (p : URLSearchParams) (name other : string) :
  other <> name ->
  URLSearchParams_get (filter (fun kv => negb (fst kv =? name)%string) p) other
  = URLSearchParams_get p other.
Proof.
  intros Hne. induction p as [|[k v] rest IH]; [reflexivity|].
  simpl. destruct (k =? name)%string eqn:E; simpl.
  - apply String.eqb_eq in E. subst k.
    apply not_eq_sym in Hne. apply String.eqb_neq in Hne. now rewrite Hne.
  - now rewrite IH.
Qed.

Lemma filter_twice {A} (f : A -> bool) (l : list A) :
  filter f (filter f l) = filter f l.
Proof.
  induction l as [|a l IH]; [reflexivity|].
  simpl. destruct (f a) eqn:E; simpl; [rewrite E; now f_equal|exact IH].
Qed.

(** [set] then [get]: the name reads back the value just set, every
    other name reads back what it did before, and setting the same pair
    again changes nothing. *)
Theorem searchParams_set_get :
  forall (p : URLSearchParams) (name value : string),
    URLSearchParams_get (Url.set p name value) name = VString value /\
    (forall other, other <> name ->
                   URLSearchParams_get (Url.set p name value) other
                   = URLSearchParams_get p other) /\
    Url.set (Url.set p name value) name value = Url.set p name value.
Proof.
  intros p name value. induction p as [|[k v] rest (IH1 & IH2 & IH3)].
  - simpl. rewrite String.eqb_refl. split; [reflexivity|split].
    + intros other Hne. apply not_eq_sym in Hne. apply String.eqb_neq in Hne.
      now rewrite Hne.
    + reflexivity.
  - simpl. destruct (k =? name)%string eqn:E.
    + apply String.eqb_eq in E. subst k. simpl. rewrite String.eqb_refl.
      split; [reflexivity|split].
      * intros other Hne. rewrite (get_filter_other rest name other Hne).
        apply not_eq_sym in Hne. apply String.eqb_neq in Hne. now rewrite Hne.
      * f_equal. apply filter_twice.
    + simpl. rewrite E. split; [exact IH1|split].
      * intros other Hne. rewrite (IH2 other Hne). reflexivity.
      * simpl. rewrite ?E. now rewrite IH3.
Qed.

(** ** More on the Route Guard *)

Lemma append_cancel_l (a x y : string) : a ++ x = a ++ y -> x = y.
Proof.
  induction a as [|c a IH]; simpl; [auto|].
  intros H. injection H as H. auto.
Qed.

Lemma proxy_redirect_inv (req : NextRequest) (location : string) :
  proxy req = redirect location ->
  existsb (fun pattern => matches pattern (pathname (nextUrl req))) matcher = true /\
  auth req = None /\
  location = origin (url req) ++ "/auth/v1/login?from=" ++ Url.encode (from_value req).
Proof.
  unfold proxy. intros H.
  destruct (existsb _ matcher) eqn:Hm; [|discriminate].
  pose proof (matcher_inside req Hm) as Hp.
  destruct (auth req) as [s|] eqn:Ha.
  - rewrite handler_next in H; [discriminate|]. right. congruence.
  - rewrite (handler_redirect req Hp Ha) in H. injection H as <-. auto.
Qed.


(** X12.  Nothing of the requested address is lost in the redirect: two
    requests of one origin that are sent to the same location asked for the
    same path and query. *)
Theorem redirect_location_determines_request :
  forall (req1 req2 : NextRequest) (location : string),
    proxy req1 = redirect location ->
    proxy req2 = redirect location ->
    origin (url req1) = origin (url req2) ->
    from_value req1 = from_value req2.
Proof.
  intros req1 req2 loc H1 H2 Ho.
  destruct (proxy_redirect_inv req1 loc H1) as (_ & _ & E1).
  destruct (proxy_redirect_inv req2 loc H2) as (_ & _ & E2).
  rewrite E1, Ho in E2.
  apply append_cancel_l in E2. apply append_cancel_l in E2.
  rewrite <- (decode_encode (from_value req1)), <- (decode_encode (from_value req2)).
  now rewrite E2.
Qed.

Lemma redirect_location_determines_request_witness :
  from_value {| url := {| origin := "https://admin.example.com";
                          pathname := "/dashboard/reports";
                          searchParams := [("x", "1")] |};
                auth := None |}
  = "/dashboard/reports?x=1".
Proof.
  exact (redirect_location_determines_request
           {| url := {| origin := "https://admin.example.com";
                        pathname := "/dashboard/reports";
                        searchParams := [("x", "1")] |};
              auth := None |}
           {| url := {| origin := "https://admin.example.com";
                        pathname := "/dashboard/reports";
                        searchParams := [("x", "1")] |};
              auth := None |}
           "https://admin.example.com/auth/v1/login?from=%2Fdashboard%2Freports%3Fx%3D1"
           eq_refl eq_refl eq_refl).
Defined.

Lemma from_value_dashboard (req : NextRequest) :
  startsWith (pathname (nextUrl req)) "/dashboard" = true ->
  exists rest, from_value req = "/dashboard" ++ rest.
Proof.
  intros Hp. destruct (startsWith_split _ _ Hp) as [rest Hrest].
  unfold from_value. rewrite Hrest. rewrite append_assoc. eexists. reflexivity.
Qed.

Lemma login_page_query (req : NextRequest) (a : option Session) :
  searchParams (nextUrl (request_for (login_url req) a)) = [("from", from_value req)].
Proof.
  unfold request_for, nextUrl. cbn [url searchParams]. apply parse_toString.
Qed.

Lemma LoginForm_from_not_empty (sp : URLSearchParams) : LoginForm_from sp <> "".
Proof.
  unfold LoginForm_from, or_else.
  destruct (URLSearchParams_get sp "from") as [| |s|n]; simpl; try discriminate.
  destruct (s =? "")%string eqn:E; simpl; [discriminate|].
  now apply String.eqb_neq.
Qed.

Lemma LoginForm_submits (isEmail : string -> bool) (sp : URLSearchParams)
      (email password : string) :
  isEmail email = true -> 6 <= String.length password ->
  submits isEmail (LoginForm_submit sp email password) email password (LoginForm_from sp).
Proof.
  intros He Hl. unfold submits. repeat split; auto.
  cbn [LoginForm_submit FormData_get String.eqb Ascii.eqb Bool.eqb entry_value].
  unfold or_else. simpl truthy.
  pose proof (LoginForm_from_not_empty sp) as Hne.
  apply String.eqb_neq in Hne. now rewrite Hne.
Qed.

Lemma login_page_from (req : NextRequest) (location : string) (a : option Session) :
  proxy req = redirect location ->
  LoginForm_from (searchParams (nextUrl (request_for (login_url req) a)))
  = from_value req.
Proof.
  intros H. rewrite login_page_query.
  destruct (proxy_redirect_inv req location H) as (Hm & _ & _).
  destruct (from_value_dashboard req (matcher_inside req Hm)) as [rest Hrest].
  unfold LoginForm_from, or_else. simpl. rewrite Hrest. reflexivity.
Qed.

(** X13.  The address the guard redirects to is that of its [URL] object,
    and its query holds one parameter only, [from] with the requested path
    and query as value: an ampersand or an equals sign in the requested
    address cannot add a parameter of its own.  The request for that
    address passes the guard, with or without a session. *)
Theorem redirect_query_is_single_from :
  forall (req : NextRequest) (location : string) (a : option Session),
    proxy req = redirect location ->
    location = href (login_url req) /\
    searchParams (nextUrl (request_for (login_url req) a)) = [("from", from_value req)] /\
    proxy (request_for (login_url req) a) = next.
Proof.
  intros req loc a H.
  destruct (proxy_redirect_inv req loc H) as (_ & _ & ->).
  split; [reflexivity|]. split; [apply login_page_query|reflexivity].
Qed.

Lemma redirect_query_is_single_from_witness :
  searchParams
    (nextUrl (request_for
                (login_url {| url := {| origin := "https://admin.example.com";
                                        pathname := "/dashboard/reports";
                                        searchParams := [("x", "1&from=/elsewhere")] |};
                              auth := None |})
                None))
  = [("from", "/dashboard/reports?x=1%26from%3D%2Felsewhere")].
Proof.
  exact (proj1 (proj2
           (redirect_query_is_single_from
              {| url := {| origin := "https://admin.example.com";
                           pathname := "/dashboard/reports";
                           searchParams := [("x", "1&from=/elsewhere")] |};
                 auth := None |}
              _ None eq_refl))).
Defined.

(** X14.  The form of the login page always submits a [from], and never an
    empty one: it is the first [from] parameter of the page when that is
    not empty, and [/dashboard/default] otherwise; the typed address and
    password are submitted as they are.  So [loginAction] never has to fall
    back on its own default for a form that comes from this page. *)
Theorem login_form_submits_from :
  forall (sp : URLSearchParams) (email password : string),
    let fd := LoginForm_submit sp email password in
    FormData_get fd "from" = VString (LoginForm_from sp) /\
    FormData_get fd "email" = VString email /\
    FormData_get fd "password" = VString password /\
    LoginForm_from sp <> "" /\
    or_else (FormData_get fd "from") (VString "/dashboard/default")
    = VString (LoginForm_from sp) /\
    (forall s, URLSearchParams_get sp "from" = VString s -> s <> "" ->
               LoginForm_from sp = s) /\
    (URLSearchParams_get sp "from" = VNull \/ URLSearchParams_get sp "from" = VString "" ->
     LoginForm_from sp = "/dashboard/default").
Proof.
  intros sp email password fd. subst fd.
  pose proof (LoginForm_from_not_empty sp) as Hne.
  split; [reflexivity|]. split; [reflexivity|]. split; [reflexivity|].
  split; [exact Hne|]. split.
  - cbn [LoginForm_submit FormData_get String.eqb Ascii.eqb Bool.eqb entry_value].
    unfold or_else. simpl truthy.
    apply String.eqb_neq in Hne. now rewrite Hne.
  - split.
    + intros s Hs Hn. unfold LoginForm_from, or_else. rewrite Hs. simpl.
      apply String.eqb_neq in Hn. now rewrite Hn.
    + intros [Hs|Hs]; unfold LoginForm_from, or_else; now rewrite Hs.
Qed.

(** X15.  From the guard to the login form: when the guard redirects a
    request and the browser opens the address it was sent to, the form of
    that page submits the requested path and query as [from]; with a
    well-formed address and a password of six or more characters the form
    passes [loginSchema] with exactly that target. *)
Theorem guard_to_form_keeps_target :
  forall (isEmail : string -> bool) (req : NextRequest) (location : string)
         (a : option Session) (email password : string),
    proxy req = redirect location ->
    let page := request_for (login_url req) a in
    let fd := LoginForm_submit (searchParams (nextUrl page)) email password in
    FormData_get fd "from" = VString (from_value req) /\
    (isEmail email = true -> 6 <= String.length password ->
     forall w,
       loginSchema_parse isEmail
         (FormData_get fd "email") (FormData_get fd "password")
         (or_else (FormData_get fd "from") (VString "/dashboard/default")) w
       = (Return {| data_email := email; data_password := password;
                    data_from := Some (from_value req) |}, w)).
Proof.
  intros isEmail req loc a email password H page fd.
  pose proof (login_page_from req loc a H) as Hf. fold page in Hf.
  subst fd. split.
  - cbn [LoginForm_submit FormData_get String.eqb Ascii.eqb Bool.eqb entry_value].
    now rewrite Hf.
  - intros He Hl w. rewrite <- Hf. apply parse_valid.
    now apply LoginForm_submits.
Qed.

Lemma guard_to_form_keeps_target_witness :
  FormData_get
    (LoginForm_submit
       (searchParams
          (nextUrl (request_for
                      (login_url {| url := {| origin := "https://admin.example.com";
                                              pathname := "/dashboard/reports";
                                              searchParams := [("x", "1")] |};
                                    auth := None |})
                      None)))
       "admin@example.com" "admin123")
    "from"
  = VString "/dashboard/reports?x=1".
Proof.
  exact (proj1
           (guard_to_form_keeps_target
              email_regex
              {| url := {| origin := "https://admin.example.com";
                           pathname := "/dashboard/reports";
                           searchParams := [("x", "1")] |};
                 auth := None |}
              _ None "admin@example.com" "admin123" eq_refl)).
Defined.

(** X16.  Back where the user wanted to go: after the guard redirected a
    request, a login on the page it led to, with the address of a stored
    record and a password its hash verifies, ends in the redirect to the
    path and query first requested, with the session cookie of that record
    set. *)
Theorem login_returns_to_requested_page :
  forall (isEmail : string -> bool) (bcrypt_compare : string -> string -> bool)
         (req : NextRequest) (location : string) (a : option Session)
         (prev : LoginState) (email password : string) (w : World) (u : Prisma.User),
    proxy req = redirect location ->
    isEmail email = true -> 6 <= String.length password ->
    secret w <> None ->
    Prisma.reachable (store w) = true ->
    Prisma.lookup (store w) email = Some u ->
    bcrypt_compare password (Prisma.passwordHash u) = true ->
    let page := request_for (login_url req) a in
    let fd := LoginForm_submit (searchParams (nextUrl page)) email password in
    let r := loginAction isEmail bcrypt_compare prev fd w in
    fst r = Throw (NEXT_REDIRECT (from_value req)) /\
    cookie (snd r) = Some (token_for u).
Proof.
  intros isEmail cmp req loc a prev email password w u H He Hl Hsec Hr L C page fd r.
  pose proof (login_page_from req loc a H) as Hf. fold page in Hf.
  pose proof (LoginForm_submits isEmail (searchParams (nextUrl page)) email password He Hl)
    as S.
  rewrite Hf in S. fold fd in S.
  subst r. unfold loginAction.
  rewrite (loginAction_with_valid isEmail _ prev fd _ _ _ w S).
  rewrite (signIn_success isEmail cmp _ _ _ w u He Hl Hsec Hr L C).
  split; reflexivity.
Qed.

Lemma login_returns_to_requested_page_witness :
  fst (loginAction email_regex sample_compare initialState
         (LoginForm_submit
            (searchParams
               (nextUrl (request_for
                           (login_url {| url := {| origin := "https://admin.example.com";
                                                   pathname := "/dashboard/reports";
                                                   searchParams := [("x", "1")] |};
                                         auth := None |})
                           None)))
            "admin@example.com" "admin123")
         seeded)
  = Throw (NEXT_REDIRECT "/dashboard/reports?x=1").
Proof.
  assert (Hl : 6 <= String.length "admin123") by (simpl; lia).
  assert (Hsec : secret seeded <> None) by discriminate.
  exact (proj1
           (login_returns_to_requested_page
              email_regex sample_compare
              {| url := {| origin := "https://admin.example.com";
                           pathname := "/dashboard/reports";
                           searchParams := [("x", "1")] |};
                 auth := None |}
              _ None initialState "admin@example.com" "admin123" seeded seed_admin
              eq_refl eq_refl Hl Hsec eq_refl eq_refl eq_refl)).
Defined.



(** ** The seed script *)

Section SeedFacts.

Variable bcrypt_hash : string -> nat -> string.

Lemma seed_store_down (cuid : string) (now : nat) (w : World) :
  Prisma.reachable (store w) = false ->
  seed_script bcrypt_hash cuid now w
  = ({| exit_code := 1; stderr := [("Error seeding database", PrismaError)] |}, w).
Proof.
  intros Hr. unfold seed_script, main, bind, prisma_user_upsert. now rewrite Hr.
Qed.

Lemma seed_existing (cuid : string) (now : nat) (w : World) (u : Prisma.User) :
  Prisma.reachable (store w) = true ->
  Prisma.lookup (store w) "admin@example.com" = Some u ->
  seed_script bcrypt_hash cuid now w = ({| exit_code := 0; stderr := [] |}, w).
Proof.
  intros Hr L. unfold seed_script, main, bind, prisma_user_upsert. simpl.
  now rewrite Hr, L.
Qed.

Lemma seed_fresh (cuid : string) (now : nat) (w : World) :
  Prisma.reachable (store w) = true ->
  Prisma.lookup (store w) "admin@example.com" = None ->
  seed_script bcrypt_hash cuid now w
  = ({| exit_code := 0; stderr := [] |},
     with_users w (Prisma.users (store w) ++ [admin_row bcrypt_hash cuid now])).
Proof.
  intros Hr L. unfold seed_script, main, bind, prisma_user_upsert. simpl.
  now rewrite Hr, L.
Qed.

End SeedFacts.

Lemma lookup_with_users (w : World) (us : list Prisma.User) (u : Prisma.User) (e : string) :
  Prisma.lookup (store (with_users w (us ++ [u]))) e
  = match find (fun x => Prisma.email x =? e)%string us with
    | Some x => Some x
    | None => if (Prisma.email u =? e)%string then Some u else None
    end.
Proof.
  unfold Prisma.lookup, with_users. simpl.
  induction us as [|x us IH]; simpl.
  - reflexivity.
  - destruct (Prisma.email x =? e)%string; [reflexivity|exact IH].
Qed.

(** X18.  Seeding twice is seeding once: a second run of the script, with
    whatever id and time the store would generate, ends with the same exit
    code and leaves the world as the first run left it. *)
Theorem seed_is_idempotent :
  forall (bcrypt_hash : string -> nat -> string)
         (cuid1 cuid2 : string) (now1 now2 : nat) (w : World),
    let once := seed_script bcrypt_hash cuid1 now1 w in
    let twice := seed_script bcrypt_hash cuid2 now2 (snd once) in
    snd twice = snd once /\ exit_code (fst twice) = exit_code (fst once).
Proof.
  intros h c1 c2 n1 n2 w once twice. subst once twice.
  destruct (Prisma.reachable (store w)) eqn:Hr.
  - destruct (Prisma.lookup (store w) "admin@example.com") as [u|] eqn:L.
    + rewrite (seed_existing h c1 n1 w u Hr L). simpl.
      now rewrite (seed_existing h c2 n2 w u Hr L).
    + rewrite (seed_fresh h c1 n1 w Hr L). simpl.
      erewrite seed_existing; [split; reflexivity|exact Hr|].
      rewrite lookup_with_users. fold (Prisma.lookup (store w) "admin@example.com").
      rewrite L. reflexivity.
  - rewrite (seed_store_down h c1 n1 w Hr). simpl.
    now rewrite (seed_store_down h c2 n2 w Hr).
Qed.

(** X19.  The script never touches what is there: the secret, the cookie
    and the trace stay, every row of the store stays where it was, and at
    most one row is added behind them.  If a row for [admin@example.com]
    exists, nothing at all changes, so its password is not reset to the
    default.  Every lookup that found a row before finds the same row
    after. *)
Theorem seed_keeps_existing_rows :
  forall (bcrypt_hash : string -> nat -> string) (cuid : string) (now : nat) (w : World),
    let w' := snd (seed_script bcrypt_hash cuid now w) in
    secret w' = secret w /\ cookie w' = cookie w /\ trace w' = trace w /\
    Prisma.reachable (store w') = Prisma.reachable (store w) /\
    (exists added,
        Prisma.users (store w') = (Prisma.users (store w) ++ added)%list /\
        length added <= 1) /\
    (forall u, Prisma.lookup (store w) "admin@example.com" = Some u -> w' = w) /\
    (forall e u, Prisma.lookup (store w) e = Some u ->
                 Prisma.lookup (store w') e = Some u).
Proof.
  intros h c n w w'. subst w'.
  assert (Same : forall w1, w1 = w ->
            secret w1 = secret w /\ cookie w1 = cookie w /\ trace w1 = trace w /\
            Prisma.reachable (store w1) = Prisma.reachable (store w) /\
            (exists added,
                Prisma.users (store w1) = (Prisma.users (store w) ++ added)%list /\
                length added <= 1) /\
            (forall u, Prisma.lookup (store w) "admin@example.com" = Some u -> w1 = w) /\
            (forall e u, Prisma.lookup (store w) e = Some u ->
                         Prisma.lookup (store w1) e = Some u)).
  { intros w1 ->. do 4 (split; [reflexivity|]). split; [|split; auto].
    exists []. split; [now rewrite app_nil_r|simpl; lia]. }
  destruct (Prisma.reachable (store w)) eqn:Hr.
  - destruct (Prisma.lookup (store w) "admin@example.com") as [a|] eqn:L.
    + apply Same. now rewrite (seed_existing h c n w a Hr L).
    + rewrite (seed_fresh h c n w Hr L). cbn [snd].
      do 3 (split; [reflexivity|]). split; [exact Hr|]. split; [|split].
      * eexists. split; [reflexivity|]. simpl. lia.
      * discriminate.
      * intros e u Hu. rewrite lookup_with_users.
        unfold Prisma.lookup in Hu. now rewrite Hu.
  - apply Same. now rewrite (seed_store_down h c n w Hr).
Qed.

(** X20.  After a run against a reachable store there is a row for
    [admin@example.com], and the script ends with code 0.  If there was
    none before, the row is the one of the script: named Admin, with the
    role admin, the hash of the default password at cost 12, and the id and
    time the store generated. *)
Theorem seed_creates_admin :
  forall (bcrypt_hash : string -> nat -> string) (cuid : string) (now : nat) (w : World),
    Prisma.reachable (store w) = true ->
    let r := seed_script bcrypt_hash cuid now w in
    exit_code (fst r) = 0 /\ stderr (fst r) = [] /\
    (exists u, Prisma.lookup (store (snd r)) "admin@example.com" = Some u) /\
    (Prisma.lookup (store w) "admin@example.com" = None ->
     Prisma.lookup (store (snd r)) "admin@example.com"
     = Some {| Prisma.id := cuid;
               Prisma.email := "admin@example.com";
               Prisma.name := Some "Admin";
               Prisma.passwordHash := bcrypt_hash "admin123" 12;
               Prisma.role := "admin";
               Prisma.createdAt := now |}).
Proof.
  intros h c n w Hr r. subst r.
  destruct (Prisma.lookup (store w) "admin@example.com") as [a|] eqn:L.
  - rewrite (seed_existing h c n w a Hr L). simpl.
    repeat split; [now exists a|discriminate].
  - rewrite (seed_fresh h c n w Hr L). simpl.
    assert (H : Prisma.lookup
                  (store (with_users w (Prisma.users (store w) ++ [admin_row h c n])))
                  "admin@example.com" = Some (admin_row h c n)).
    { rewrite lookup_with_users. fold (Prisma.lookup (store w) "admin@example.com").
      now rewrite L. }
    repeat split; [eexists; exact H|intros _; exact H].
Qed.

Lemma seed_creates_admin_witness :
  Prisma.lookup
    (store (snd (seed_script sample_hash "cuid-admin" 0
                             {| store := {| Prisma.reachable := true; Prisma.users := [] |};
                                secret := Some "AUTH_SECRET"; cookie := None;
                                trace := [] |})))
    "admin@example.com"
  = Some seed_admin.
Proof.
  exact (proj2 (proj2 (proj2
           (seed_creates_admin
              sample_hash "cuid-admin" 0
              {| store := {| Prisma.reachable := true; Prisma.users := [] |};
                 secret := Some "AUTH_SECRET"; cookie := None; trace := [] |}
              eq_refl))) eq_refl).
Defined.

(** X21.  The documented default login works on a freshly seeded store:
    when the store had no row for [admin@example.com] and the verifier
    accepts a password against its own hash, [authorize] with
    [admin@example.com] and [admin123] returns the seeded user, with the
    role admin. *)
Theorem seeded_admin_can_log_in :
  forall (isEmail : string -> bool) (bcrypt_compare : string -> string -> bool)
         (bcrypt_hash : string -> nat -> string) (cuid : string) (now : nat) (w : World),
    isEmail "admin@example.com" = true ->
    bcrypt_compare "admin123" (bcrypt_hash "admin123" 12) = true ->
    Prisma.reachable (store w) = true ->
    Prisma.lookup (store w) "admin@example.com" = None ->
    fst (authorize isEmail bcrypt_compare
                   (credentials_of "admin@example.com" "admin123")
                   (snd (seed_script bcrypt_hash cuid now w)))
    = Return (Some {| user_id := cuid;
                      user_email := "admin@example.com";
                      user_name := Some "Admin";
                      user_role := "admin" |}).
Proof.
  intros isEmail cmp h c n w He Hc Hr L.
  rewrite (seed_fresh h c n w Hr L). simpl snd.
  assert (Hl : 6 <= String.length "admin123") by (simpl; lia).
  assert (L' : Prisma.lookup
                 (store (with_users w (Prisma.users (store w) ++ [admin_row h c n])))
                 "admin@example.com" = Some (admin_row h c n)).
  { rewrite lookup_with_users. fold (Prisma.lookup (store w) "admin@example.com").
    now rewrite L. }
  rewrite (authorize_success isEmail cmp _ _ _ _ (admin_row h c n)
             (safeParse_valid isEmail _ _ He Hl)); auto.
Qed.

Lemma seeded_admin_can_log_in_witness :
  fst (authorize email_regex sample_compare
                 (credentials_of "admin@example.com" "admin123")
                 (snd (seed_script sample_hash "cuid-admin" 0
                         {| store := {| Prisma.reachable := true; Prisma.users := [] |};
                            secret := Some "AUTH_SECRET"; cookie := None;
                            trace := [] |})))
  = Return (Some {| user_id := "cuid-admin";
                    user_email := "admin@example.com";
                    user_name := Some "Admin";
                    user_role := "admin" |}).
Proof.
  exact (seeded_admin_can_log_in
           email_regex sample_compare sample_hash "cuid-admin" 0
           {| store := {| Prisma.reachable := true; Prisma.users := [] |};
              secret := Some "AUTH_SECRET"; cookie := None; trace := [] |}
           eq_refl eq_refl eq_refl eq_refl).
Defined.



(** X23.  The script fails exactly when the store is unreachable: then it
    reports the error under [Error seeding database], ends with code 1 and
    leaves the world as it was.  With a reachable store it ends with code 0
    and reports nothing; the unique column can never refuse its row. *)
Theorem seed_exit_code :
  forall (bcrypt_hash : string -> nat -> string) (cuid : string) (now : nat) (w : World),
    let r := seed_script bcrypt_hash cuid now w in
    (Prisma.reachable (store w) = false ->
     r = ({| exit_code := 1; stderr := [("Error seeding database", PrismaError)] |}, w)) /\
    (Prisma.reachable (store w) = true ->
     fst r = {| exit_code := 0; stderr := [] |}) /\
    (exit_code (fst r) = 1 <-> Prisma.reachable (store w) = false).
Proof.
  intros h c n w r. subst r.
  destruct (Prisma.reachable (store w)) eqn:Hr.
  - assert (H : fst (seed_script h c n w) = {| exit_code := 0; stderr := [] |}).
    { destruct (Prisma.lookup (store w) "admin@example.com") as [a|] eqn:L.
      - now rewrite (seed_existing h c n w a Hr L).
      - now rewrite (seed_fresh h c n w Hr L). }
    split; [discriminate|]. split; [auto|]. rewrite H. simpl. split; discriminate.
  - rewrite (seed_store_down h c n w Hr). simpl.
    split; [auto|]. split; [discriminate|]. split; auto.
Qed.
